(** * GorillaBot: command recognition and configuration lists

    A shallow embedding of [CommandManager.check_command]
    (src/commandmanager.py) and of [Configurator.get_configuration],
    [Configurator.prompt] and [Configurator.make_new] (configure.py), with
    the properties of the specification proved or refuted against it, and
    further properties of the code.

    Python values are modelled as follows.
    - [str] is [string]: a sequence of characters with code points below 256.
    - [list] of [str] is [list string]; an in-place update of a list becomes
      a new binding of the variable that holds it.
    - A call that raises is a value [inl e] of [result]; a call that returns
      is [inr v].  The only exceptions the modelled code can raise are
      [IndexError] (popping or indexing out of range) and [ValueError]
      (the conversion of the port number).
    - The functions that talk to the terminal run on a [console]: the lines
      left on the standard input and the transcript of what was written and
      read; [input] raises [EOFError] when no line is left. *)

From Stdlib Require Import String Ascii List Bool Arith ZArith Lia.
From Stdlib Require Import DecimalString.
Import ListNotations.
Local Open Scope string_scope.
Local Open Scope list_scope.

(** ** The Python runtime used by the two functions *)

Inductive exception : Type :=
| IndexError
| ValueError.

Definition result (A : Type) : Type := (exception + A)%type.

Definition ret {A : Type} (a : A) : result A := inr a.

Definition raise {A : Type} (e : exception) : result A := inl e.

Definition bind {A B : Type} (c : result A) (k : A -> result B) : result B :=
  match c with
  | inl e => inl e
  | inr a => k a
  end.

Notation "x <- c ;; k" := (bind c (fun x => k))
  (at level 61, c at next level, right associativity).
Notation "' p <- c ;; k" := (bind c (fun x => match x with p => k end))
  (at level 61, p pattern, c at next level, right associativity).

(** [s[0]] *)
Definition str_item0 (s : string) : result ascii :=
  match s with
  | EmptyString => raise IndexError
  | String c _ => ret c
  end.

(** [s[1:]] *)
Definition str_tail (s : string) : string :=
  match s with
  | EmptyString => EmptyString
  | String _ t => t
  end.

(** [sub in s] *)
Fixpoint str_contains (sub s : string) : bool :=
  prefix sub s ||
  match s with
  | EmptyString => false
  | String _ t => str_contains sub t
  end.

(** [l.pop(0)], returning the popped item and the list that remains *)
Definition list_pop0 {A : Type} (l : list A) : result (A * list A) :=
  match l with
  | [] => raise IndexError
  | x :: l' => ret (x, l')
  end.

(** [l[i]] for a non-negative [i] *)
Definition list_item {A : Type} (l : list A) (i : nat) : result A :=
  match nth_error l i with
  | Some x => ret x
  | None => raise IndexError
  end.

(** [l[i] = x] for a non-negative [i] *)
Fixpoint list_set {A : Type} (l : list A) (i : nat) (x : A) : result (list A) :=
  match l, i with
  | [], _ => raise IndexError
  | _ :: l', O => ret (x :: l')
  | y :: l', S i' => l'' <- list_set l' i' x ;; ret (y :: l'')
  end.

(** [for x in xs: s = body(s, x)] *)
Fixpoint for_in {A S : Type} (body : S -> A -> result S) (xs : list A) (s : S)
  : result S :=
  match xs with
  | [] => ret s
  | x :: xs' => s' <- body s x ;; for_in body xs' s'
  end.

(** [enumerate(l)], counting from [start] *)
Fixpoint enumerate_from {A : Type} (start : nat) (l : list A) : list (nat * A) :=
  match l with
  | [] => []
  | x :: l' => (start, x) :: enumerate_from (S start) l'
  end.

Definition enumerate {A : Type} (l : list A) : list (nat * A) :=
  enumerate_from 0 l.

(** The group of [re.search(":(.*?)!", s)]: the text between the leftmost
    colon that is followed, on the same line, by an exclamation mark, and the
    first such mark.  [lazy_group] matches [(.*?)!] at a given position: the
    dot does not match a line feed. *)
Fixpoint lazy_group (s : string) : option string :=
  match s with
  | EmptyString => None
  | String c t =>
      if Ascii.eqb c "!" then Some EmptyString
      else if Ascii.eqb c "010" then None
      else option_map (String c) (lazy_group t)
  end.

Fixpoint re_search_sender (s : string) : option string :=
  match s with
  | EmptyString => None
  | String c t =>
      if Ascii.eqb c ":" then
        match lazy_group t with
        | Some g => Some g
        | None => re_search_sender t
        end
      else re_search_sender t
  end.

(** ** [CommandManager.check_command] *)

(** The local variables of [check_command] when it returns, and what it
    printed. *)
Record frame : Type := Frame {
  sender : option string;
  private : bool;
  line : list string;
  command : string;
  command_type : string;
  stdout : list string
}.

(** The body of the loop of the private branch. *)
Definition private_step (command : string) (word : string) : result string :=
  c <- str_item0 word ;;
  if Ascii.eqb c "!" then ret (str_tail word) else ret command.

(** The body of the loop of the exclamation branch; the state is the pair of
    [command] and [command_type]. *)
Definition exclamation_step (s : string * string) (iw : nat * string)
  : result (string * string) :=
  let '(command, command_type) := s in
  let '(idx, word) := iw in
  c <- str_item0 word ;;
  if Ascii.eqb c "!" then
    let command := str_tail word in
    let command_type := "exclamation" in
    if Nat.eqb idx 0 then ret (command, "exclamation_first")
    else ret (command, command_type)
  else ret (command, command_type).

Definition check_command (bot_nick : string) (line : list string) : result frame :=
  '(raw_nick, line) <- list_pop0 line ;;
  let sender := re_search_sender raw_nick in
  '(_, line) <- list_pop0 line ;;
  let private := false in
  '(raw_chan, line) <- list_pop0 line ;;
  let private := if String.eqb raw_chan bot_nick then true else private in
  line0 <- list_item line 0 ;;
  line <- list_set line 0 (str_tail line0) ;;
  let command := "" in
  let command_type := "" in
  '(command, command_type) <-
    (if private then
       command <- for_in private_step line command ;;
       command <- (if String.eqb command "" then list_item line 0
                   else ret command) ;;
       ret (command, "private")
     else
       line0 <- list_item line 0 ;;
       if str_contains bot_nick line0 then
         line1 <- list_item line 1 ;;
         c <- str_item0 line1 ;;
         command <- (if Ascii.eqb c "1" then ret (str_tail line1)
                     else ret line1) ;;
         ret (command, "direct")
       else
         for_in exclamation_step (enumerate line) (command, command_type)) ;;
  let stdout := if negb (String.eqb command "") then [command; command_type]
                else [] in
  ret (Frame sender private line command command_type stdout).

(** ** [Configurator.get_configuration] *)

(** The characters [str.strip()] removes: those for which [str.isspace] holds
    (code points 9 to 13, 28 to 32, 133 and 160 below 256). *)
Definition is_space (c : ascii) : bool :=
  let n := nat_of_ascii c in
  ((9 <=? n)%nat && (n <=? 13)%nat) || ((28 <=? n)%nat && (n <=? 32)%nat)
  || (n =? 133)%nat || (n =? 160)%nat.

Fixpoint str_lstrip (s : string) : string :=
  match s with
  | EmptyString => EmptyString
  | String c t => if is_space c then str_lstrip t else s
  end.

Fixpoint str_rstrip (s : string) : string :=
  match s with
  | EmptyString => EmptyString
  | String c t =>
      match str_rstrip t with
      | EmptyString => if is_space c then EmptyString else String c EmptyString
      | t' => String c t'
      end
  end.

(** [s.strip()] *)
Definition str_strip (s : string) : string := str_rstrip (str_lstrip s).

(** [s.split(sep)] for a separator of one character *)
Fixpoint str_split (sep : ascii) (s : string) : list string :=
  match s with
  | EmptyString => [EmptyString]
  | String c t =>
      if Ascii.eqb c sep then EmptyString :: str_split sep t
      else match str_split sep t with
           | [] => [String c EmptyString]
           | w :: ws => String c w :: ws
           end
  end.

(** What the seven calls of [config.get] of lines 40 to 46 return.
    [get_configuration] is modelled for the case that [load] and these calls
    return: a call of [config.get] that raises (a missing option, a value
    with a percent sign the parser cannot read) has no record here. *)
Record irc_section : Type := IrcSection {
  Host : string;
  Port : string;
  Nick : string;
  Realname : string;
  Ident : string;
  Chans : string;
  Botop : string
}.

(** The dictionary [get_configuration] returns, a field per key. *)
Record configuration : Type := Configuration {
  host : string;
  port : Z;
  nick : string;
  realname : string;
  ident : string;
  chans : list string;
  botop : list string
}.

(** The body of the loop over the indices of [chanlist]. *)
Definition chanlist_step (chanlist : list string) (i : nat)
  : result (list string) :=
  x <- list_item chanlist i ;;
  chanlist <- list_set chanlist i (str_strip x) ;;
  x <- list_item chanlist i ;;
  c <- str_item0 x ;;
  if negb (Ascii.eqb c "#") then
    x <- list_item chanlist i ;;
    list_set chanlist i ("#" ++ x)%string
  else ret chanlist.

(** The body of the loop over the indices of [oplist]. *)
Definition oplist_step (oplist : list string) (i : nat) : result (list string) :=
  x <- list_item oplist i ;;
  list_set oplist i (str_strip x).

Section GetConfiguration.

(** Python's [int] on a [str]: it returns the number or raises
    [ValueError]. *)
Variable int : string -> result Z.

Definition get_configuration (config : irc_section) : result configuration :=
  let host := Host config in
  port <- int (Port config) ;;
  let nick := Nick config in
  let realname := Realname config in
  let ident := Ident config in
  let chans := Chans config in
  let botop := Botop config in
  let chanlist := if str_contains "," chans then str_split "," chans
                  else str_split " " chans in
  chanlist <- for_in chanlist_step (seq 0 (length chanlist)) chanlist ;;
  let oplist := if str_contains "," botop then str_split "," botop
                else str_split " " botop in
  oplist <- for_in oplist_step (seq 0 (length oplist)) oplist ;;
  ret (Configuration host port nick realname ident chanlist oplist).

End GetConfiguration.

(** ** [Configurator.prompt] and [Configurator.make_new] *)

(** The values [prompt] takes as a default and returns: a [str] or an
    [int]. *)
Inductive value : Type :=
| Str (s : string)
| Int (z : Z).

(** [str(v)], which is also what [format] writes for a value *)
Definition str (v : value) : string :=
  match v with
  | Str s => s
  | Int z => NilZero.string_of_int (Z.to_int z)
  end.

(** The truth value of [default] in [if default:], [None] being no
    default. *)
Definition truthy (default : option value) : bool :=
  match default with
  | None => false
  | Some (Str s) => negb (String.eqb s "")
  | Some (Int z) => negb (Z.eqb z 0)
  end.

(** The terminal: the lines still to be read from the standard input, and
    what has been written to the standard output and read from the standard
    input so far, in order. *)
Inductive event : Type :=
| Wrote (text : string)
| Read (reply : string).

Record console : Type := Console {
  unread : list string;
  transcript : list event
}.

(** [input] raises [EOFError] when no line is left. *)
Inductive io_exception : Type :=
| EOFError.

Definition io (A : Type) : Type := console -> (io_exception + A) * console.

Definition io_ret {A : Type} (a : A) : io A := fun w => (inr a, w).

Definition io_bind {A B : Type} (c : io A) (k : A -> io B) : io B :=
  fun w =>
    match c w with
    | (inl e, w') => (inl e, w')
    | (inr a, w') => k a w'
    end.

Notation "x <~ c ;; k" := (io_bind c (fun x => k))
  (at level 61, c at next level, right associativity).

Definition newline : string := String "010" EmptyString.

(** [print(text)] *)
Definition print (text : string) : io unit :=
  fun w => (inr tt, Console (unread w) (transcript w ++ [Wrote (text ++ newline)])).

(** [input(text)]: the text is written, then a line is read. *)
Definition input (text : string) : io string :=
  fun w =>
    match unread w with
    | [] => (inl EOFError, Console [] (transcript w ++ [Wrote text]))
    | reply :: rest =>
        (inr reply, Console rest (transcript w ++ [Wrote text; Read reply]))
    end.

(** [s.lower()]: the capital letters below 256 are the code points 65 to 90
    and 192 to 222 without 215, each 32 below its small letter. *)
Definition chr_lower (c : ascii) : ascii :=
  let n := nat_of_ascii c in
  if ((65 <=? n)%nat && (n <=? 90)%nat)
     || ((192 <=? n)%nat && (n <=? 222)%nat && negb (n =? 215)%nat)
  then ascii_of_nat (n + 32) else c.

Fixpoint str_lower (s : string) : string :=
  match s with
  | EmptyString => EmptyString
  | String c t => String (chr_lower c) (str_lower t)
  end.

Definition prompt (field : string) (default : option value) : io value :=
  let field :=
    if truthy default
    then match default with
         | Some d => (field ++ (" [DEFAULT: " ++ str d ++ "]"))%string
         | None => field
         end
    else field in
  let field := (field ++ ": ")%string in
  answer <~ input field ;;
  match default with
  | Some d => if String.eqb answer "" then io_ret d else io_ret (Str answer)
  | None => io_ret (Str answer)
  end.

(** The local variables [make_new] leaves its loop with. *)
Record answers : Type := Answers {
  new_host : value;
  new_port : value;
  new_nick : value;
  new_realname : value;
  new_ident : value;
  new_chans : value;
  new_botop : value
}.

(** The text [make_new] formats for the summary of a round. *)
Definition settings_text (a : answers) : string :=
  ("------------------------------" ++ newline
   ++ " Host: " ++ str (new_host a) ++ newline
   ++ " Port: " ++ str (new_port a) ++ newline
   ++ " Nickname: " ++ str (new_nick a) ++ newline
   ++ " Real name: " ++ str (new_realname a) ++ newline
   ++ " Identifier: " ++ str (new_ident a) ++ newline
   ++ " Channels: " ++ str (new_chans a) ++ newline
   ++ " Bot operator(s): " ++ str (new_botop a) ++ newline
   ++ "------------------------------")%string.

(** One turn of the loop of [make_new]: the local variables and the lowered
    reply to the last question. *)
Definition make_new_round : io (answers * string) :=
  _ <~ print newline ;;
  host <~ prompt "Host" (Some (Str "irc.freenode.net")) ;;
  port <~ prompt "Port" (Some (Int 6667)) ;;
  nick <~ prompt "Nick" (Some (Str "GorillaBot")) ;;
  realname <~ prompt "Ident" (Some (Str "GorillaBot")) ;;
  ident <~ prompt "Realname" (Some (Str "GorillaBot")) ;;
  chans <~ prompt "Chans" None ;;
  botop <~ prompt "Bot operator(s)" (Some (Str "")) ;;
  let a := Answers host port nick realname ident chans botop in
  _ <~ print (settings_text a) ;;
  verify <~ input "Is this configuration correct? [Y/N]: " ;;
  io_ret (a, str_lower verify).

(** The loop of [make_new], run for at most [fuel] turns; [None] says that
    the turns ran out.  The first turn always runs, [verify] being empty
    before it. *)
Fixpoint make_new_loop (fuel : nat) : io (option answers) :=
  match fuel with
  | O => io_ret None
  | S fuel' =>
      r <~ make_new_round ;;
      let '(a, verify) := r in
      if String.eqb verify "y" then io_ret (Some a) else make_new_loop fuel'
  end.

(** The arguments of the seven calls of [config.set] after the loop, in
    order: section, option and value. *)
Definition config_set_calls (a : answers) : list (string * string * string) :=
  [("irc", "host", str (new_host a));
   ("irc", "port", str (new_port a));
   ("irc", "nick", str (new_nick a));
   ("irc", "realname", str (new_realname a));
   ("irc", "ident", str (new_ident a));
   ("irc", "chans", str (new_chans a));
   ("irc", "botop", str (new_botop a))].

(** [make_new] for the case that the calls of lines 104 to 116 return: the
    result is the arguments of the seven calls of [config.set].  The parser
    object, the file and the log are outside this model, and so is a call of
    theirs that raises ([config.set] refuses a value with a percent sign it
    cannot read): what is proved of [make_new] is about calls that return or
    that end in the dialogue. *)
Definition make_new (fuel : nat) : io (option (list (string * string * string))) :=
  r <~ make_new_loop fuel ;;
  io_ret (option_map config_set_calls r).

(** ** The notions the specification states its properties with *)

(** The five addressing modes, and the value of [command_type] that stands for
    each. *)
Inductive AddressingMode : Type :=
| Private
| Direct
| Exclamation
| ExclamationFirst
| NoMode.

Definition addressing_mode (command_type : string) : option AddressingMode :=
  if String.eqb command_type "private" then Some Private
  else if String.eqb command_type "direct" then Some Direct
  else if String.eqb command_type "exclamation" then Some Exclamation
  else if String.eqb command_type "exclamation_first" then Some ExclamationFirst
  else if String.eqb command_type "" then Some NoMode
  else None.

(** The first character of [word] is [c]; an empty word has none. *)
Definition first_char_is (c : ascii) (word : string) : bool :=
  match word with
  | EmptyString => false
  | String c' _ => Ascii.eqb c' c
  end.

(** A word carries the marker when its first character is an exclamation
    mark. *)
Definition carries_marker (word : string) : bool := first_char_is "!" word.

(** A word of at least one character. *)
Definition nonempty (w : string) : Prop := w <> EmptyString.

(** The last word of [words] that carries the marker, with its position, the
    first word having position [idx]. *)
Fixpoint last_marker_from (idx : nat) (words : list string)
  : option (nat * string) :=
  match words with
  | [] => None
  | w :: rest =>
      match last_marker_from (S idx) rest with
      | Some r => Some r
      | None => if carries_marker w then Some (idx, w) else None
      end
  end.

Definition last_marker (words : list string) : option (nat * string) :=
  last_marker_from 0 words.

(** The message body [check_command] works on: the tokens after the target,
    the first of them without its first character. *)
Definition message_body (tokens : list string) : list string :=
  match tokens with
  | [] => []
  | first :: rest => str_tail first :: rest
  end.

(** What a call lets its caller observe apart from the sender: whether it
    raised, and otherwise the flag, the body, the command, its type and the
    printed lines. *)
Definition outcome (r : result frame)
  : result (bool * list string * string * string * list string) :=
  f <- r ;; ret (private f, line f, command f, command_type f, stdout f).

(** The lines a call has printed when it returns or raises: the two [print]
    statements are the last of the function, so a call that raises has
    printed nothing. *)
Definition printed (r : result frame) : list string :=
  match r with
  | inl _ => []
  | inr f => stdout f
  end.

(** The [if]/[elif]/[else] of [check_command] (lines 54 to 75) as a function
    of the flag and of the message body, to state lemmas with;
    [check_command_unfold] proves that [check_command] runs it. *)
Definition classify (bot_nick : string) (private : bool) (words : list string)
  : result (string * string) :=
  if private then
    command <- for_in private_step words "" ;;
    command <- (if String.eqb command "" then list_item words 0
                else ret command) ;;
    ret (command, "private")
  else
    line0 <- list_item words 0 ;;
    if str_contains bot_nick line0 then
      line1 <- list_item words 1 ;;
      c <- str_item0 line1 ;;
      command <- (if Ascii.eqb c "1" then ret (str_tail line1) else ret line1) ;;
      ret (command, "direct")
    else
      for_in exclamation_step (enumerate words) ("", "").

(** What the loop over [chanlist] does to an entry: it strips it and puts a
    hash before it unless its first character is one. *)
Definition normalise_chan (x : string) : string :=
  if first_char_is "#" (str_strip x) then str_strip x
  else ("#" ++ str_strip x)%string.

(** [sep.join(words)] for a separator of one character *)
Fixpoint str_join (sep : ascii) (words : list string) : string :=
  match words with
  | [] => EmptyString
  | [w] => w
  | w :: ws => (w ++ String sep (str_join sep ws))%string
  end.

(** [c in s] for a character [c] *)
Fixpoint has_char (c : ascii) (s : string) : bool :=
  match s with
  | EmptyString => false
  | String c' t => Ascii.eqb c' c || has_char c t
  end.

(** The separator [get_configuration] splits a value on. *)
Definition separator (value : string) : ascii :=
  if str_contains "," value then "," else " ".

(** The number of occurrences of the character [c] in [s]. *)
Fixpoint count_char (c : ascii) (s : string) : nat :=
  match s with
  | EmptyString => 0
  | String c' t => (if Ascii.eqb c' c then 1 else 0) + count_char c t
  end.

(** The last character of the string [String c t]. *)
Fixpoint last_char (c : ascii) (t : string) : ascii :=
  match t with
  | EmptyString => c
  | String c' t' => last_char c' t'
  end.

(** The string begins or ends with a whitespace character. *)
Definition space_around (s : string) : bool :=
  match s with
  | EmptyString => false
  | String c t => is_space c || is_space (last_char c t)
  end.

(** The pieces [get_configuration] splits a value into. *)
Definition pieces (value : string) : list string :=
  str_split (separator value) value.

(** The lines typed in one turn of [make_new], named after the questions
    they reply to, in the order of the questions. *)
Record replies : Type := Replies {
  to_host : string;
  to_port : string;
  to_nick : string;
  to_ident : string;
  to_realname : string;
  to_chans : string;
  to_botop : string;
  to_confirm : string
}.

Definition lines_of (r : replies) : list string :=
  [to_host r; to_port r; to_nick r; to_ident r; to_realname r; to_chans r;
   to_botop r; to_confirm r].

(** A reply, or the default when the reply is empty. *)
Definition or_default (reply default : string) : string :=
  if String.eqb reply "" then default else reply.

(** The text [prompt] shows for a field and a default. *)
Definition prompt_text (field : string) (default : option value) : string :=
  match default with
  | Some d => if truthy default
              then ((field ++ (" [DEFAULT: " ++ str d ++ "]")) ++ ": ")%string
              else (field ++ ": ")%string
  | None => (field ++ ": ")%string
  end.

(** The local variables a turn with the replies [r] ends with: [realname]
    is read at the question [Ident] and [ident] at the question
    [Realname]. *)
Definition answers_of (r : replies) : answers :=
  Answers
    (Str (or_default (to_host r) "irc.freenode.net"))
    (if String.eqb (to_port r) "" then Int 6667 else Str (to_port r))
    (Str (or_default (to_nick r) "GorillaBot"))
    (Str (or_default (to_ident r) "GorillaBot"))
    (Str (or_default (to_realname r) "GorillaBot"))
    (Str (to_chans r))
    (Str (to_botop r)).

(** What a turn with the replies [r] adds to the transcript. *)
Definition round_transcript (r : replies) : list event :=
  [Wrote (newline ++ newline)%string;
   Wrote "Host [DEFAULT: irc.freenode.net]: "; Read (to_host r);
   Wrote "Port [DEFAULT: 6667]: "; Read (to_port r);
   Wrote "Nick [DEFAULT: GorillaBot]: "; Read (to_nick r);
   Wrote "Ident [DEFAULT: GorillaBot]: "; Read (to_ident r);
   Wrote "Realname [DEFAULT: GorillaBot]: "; Read (to_realname r);
   Wrote "Chans: "; Read (to_chans r);
   Wrote "Bot operator(s): "; Read (to_botop r);
   Wrote (settings_text (answers_of r) ++ newline)%string;
   Wrote "Is this configuration correct? [Y/N]: "; Read (to_confirm r)].

(** The values stored for a turn with the replies [r]. *)
Definition stored_of (r : replies) : list (string * string * string) :=
  [("irc", "host", or_default (to_host r) "irc.freenode.net");
   ("irc", "port", or_default (to_port r) "6667");
   ("irc", "nick", or_default (to_nick r) "GorillaBot");
   ("irc", "realname", or_default (to_ident r) "GorillaBot");
   ("irc", "ident", or_default (to_realname r) "GorillaBot");
   ("irc", "chans", to_chans r);
   ("irc", "botop", to_botop r)].

(** ** Examples *)

Example private_marker_word :
  check_command "bot" [":alice!user@host"; "PRIVMSG"; "bot"; ":!help"]
  = ret (Frame (Some "alice") true ["!help"] "help" "private" ["help"; "private"]).
Proof. reflexivity. Qed.

Example direct_digit_word :
  check_command "bot" [":bob!u@h"; "PRIVMSG"; "#chan"; ":bot:"; "1wave"]
  = ret (Frame (Some "bob") false ["bot:"; "1wave"] "wave" "direct" ["wave"; "direct"]).
Proof. reflexivity. Qed.

Example exclamation_second_word :
  check_command "bot" [":c!u@h"; "PRIVMSG"; "#chan"; ":hey"; "!ping"; "there"]
  = ret (Frame (Some "c") false ["hey"; "!ping"; "there"] "ping" "exclamation"
           ["ping"; "exclamation"]).
Proof. reflexivity. Qed.

Example exclamation_first_word :
  check_command "bot" [":c!u@h"; "PRIVMSG"; "#chan"; ":!ping"; "there"]
  = ret (Frame (Some "c") false ["!ping"; "there"] "ping" "exclamation_first"
           ["ping"; "exclamation_first"]).
Proof. reflexivity. Qed.

Example no_command :
  check_command "bot" [":c!u@h"; "PRIVMSG"; "#chan"; ":just"; "chatting"]
  = ret (Frame (Some "c") false ["just"; "chatting"] "" "" []).
Proof. reflexivity. Qed.

Example two_tokens_raise :
  check_command "bot" [":c!u@h"; "PRIVMSG"] = raise IndexError.
Proof. reflexivity. Qed.

Example no_sender_in_prefix :
  check_command "bot" ["irc.example.net"; "PRIVMSG"; "bot"; ":help"]
  = ret (Frame None true ["help"] "help" "private" ["help"; "private"]).
Proof. reflexivity. Qed.

Example configuration_of_lists :
  get_configuration (fun _ => ret 6667%Z)
    (IrcSection "irc.freenode.net" "6667" "GorillaBot" "GorillaBot" "GorillaBot"
       "#a, b ,##c" "op1 op2")
  = ret (Configuration "irc.freenode.net" 6667 "GorillaBot" "GorillaBot"
           "GorillaBot" ["#a"; "#b"; "##c"] ["op1"; "op2"]).
Proof. reflexivity. Qed.

Example configuration_empty_channel :
  get_configuration (fun _ => ret 6667%Z)
    (IrcSection "irc.freenode.net" "6667" "GorillaBot" "GorillaBot" "GorillaBot"
       "#a,,#b" "op1")
  = raise IndexError.
Proof. reflexivity. Qed.

(** ** How [check_command] unfolds *)

Lemma check_command_unfold bot_nick raw_nick verb raw_chan first rest :
  check_command bot_nick (raw_nick :: verb :: raw_chan :: first :: rest)
  = ('(command, command_type) <-
       classify bot_nick (String.eqb raw_chan bot_nick) (str_tail first :: rest) ;;
     ret (Frame (re_search_sender raw_nick) (String.eqb raw_chan bot_nick)
            (str_tail first :: rest) command command_type
            (if negb (String.eqb command "") then [command; command_type]
             else []))).
Proof.
  unfold check_command, classify. cbn.
  destruct (String.eqb raw_chan bot_nick); reflexivity.
Qed.

Lemma check_command_short bot_nick tokens :
  length tokens <= 3 -> check_command bot_nick tokens = raise IndexError.
Proof.
  destruct tokens as [|a [|b [|c [|d rest]]]]; cbn; intros H;
    try reflexivity; lia.
Qed.

(** ** The two scans *)

Lemma private_scan_last_marker words :
  Forall nonempty words ->
  forall idx command,
    for_in private_step words command
    = ret (match last_marker_from idx words with
           | Some (_, w) => str_tail w
           | None => command
           end).
Proof.
  induction 1 as [|w rest Hw _ IH]; intros idx command.
  - reflexivity.
  - destruct w as [|c t]; [now elim Hw|].
    cbn. destruct (Ascii.eqb c "!"); cbn; rewrite (IH (S idx));
      destruct (last_marker_from (S idx) rest) as [[i w']|]; reflexivity.
Qed.

Lemma exclamation_scan_last_marker words :
  Forall nonempty words ->
  forall idx command command_type,
    for_in exclamation_step (enumerate_from idx words) (command, command_type)
    = ret (match last_marker_from idx words with
           | Some (i, w) =>
               (str_tail w,
                if Nat.eqb i 0 then "exclamation_first" else "exclamation")
           | None => (command, command_type)
           end).
Proof.
  induction 1 as [|w rest Hw _ IH]; intros idx command command_type.
  - reflexivity.
  - destruct w as [|c t]; [now elim Hw|].
    cbn [enumerate_from for_in last_marker_from carries_marker first_char_is].
    unfold exclamation_step at 1.
    cbn [str_item0 bind ret str_tail].
    destruct (Ascii.eqb c "!").
    + destruct (Nat.eqb idx 0) eqn:E; cbn [bind ret]; rewrite IH;
        destruct (last_marker_from (S idx) rest) as [[i w']|];
        cbn [str_tail]; rewrite ?E; reflexivity.
    + cbn [bind ret]. rewrite IH.
      destruct (last_marker_from (S idx) rest) as [[i w']|]; reflexivity.
Qed.

Lemma private_scan_empty_word words :
  In EmptyString words ->
  forall command, for_in private_step words command = raise IndexError.
Proof.
  induction words as [|w rest IH]; intros Hin command; [destruct Hin|].
  destruct w as [|c t]; [reflexivity|].
  destruct Hin as [Heq | Hin]; [discriminate|].
  cbn. destruct (Ascii.eqb c "!"); cbn; now apply IH.
Qed.

Lemma exclamation_scan_empty_word words :
  In EmptyString words ->
  forall idx s, for_in exclamation_step (enumerate_from idx words) s = raise IndexError.
Proof.
  induction words as [|w rest IH]; intros Hin idx [command command_type];
    [destruct Hin|].
  destruct w as [|c t]; [reflexivity|].
  destruct Hin as [Heq | Hin]; [discriminate|].
  cbn [enumerate_from for_in]. unfold exclamation_step at 1.
  cbn [str_item0 bind ret].
  destruct (Ascii.eqb c "!"); [destruct (Nat.eqb idx 0)|]; cbn [bind ret];
    now apply IH.
Qed.

(** ** The last marker word, characterised by positions *)

Lemma last_marker_from_none idx words :
  last_marker_from idx words = None <->
  Forall (fun w => carries_marker w = false) words.
Proof.
  revert idx. induction words as [|w rest IH]; intros idx; cbn.
  - split; [constructor | reflexivity].
  - destruct (last_marker_from (S idx) rest) as [r|] eqn:E.
    + split; [discriminate|]. intros H. inversion H; subst.
      apply (IH (S idx)) in H3. congruence.
    + apply IH in E. destruct (carries_marker w) eqn:Ew.
      * split; [discriminate|]. intros H. inversion H; subst. congruence.
      * split; [now constructor | reflexivity].
Qed.

Lemma last_marker_from_app idx pre w post :
  carries_marker w = true ->
  Forall (fun w' => carries_marker w' = false) post ->
  last_marker_from idx (pre ++ w :: post) = Some (idx + length pre, w).
Proof.
  intros Hw Hpost. revert idx.
  induction pre as [|x pre IH]; intros idx; cbn.
  - apply (last_marker_from_none (S idx)) in Hpost. rewrite Hpost, Hw.
    now rewrite Nat.add_0_r.
  - rewrite IH. f_equal. f_equal. lia.
Qed.

Lemma last_marker_from_some idx words i w :
  last_marker_from idx words = Some (i, w) ->
  exists pre post,
    words = pre ++ w :: post /\ i = idx + length pre /\
    carries_marker w = true /\
    Forall (fun w' => carries_marker w' = false) post.
Proof.
  revert idx. induction words as [|x rest IH]; intros idx; cbn; [discriminate|].
  destruct (last_marker_from (S idx) rest) as [r|] eqn:E.
  - intros H; inversion H; subst r.
    destruct (IH _ E) as (pre & post & -> & -> & Hw & Hpost).
    exists (x :: pre), post. cbn. repeat split; auto; lia.
  - destruct (carries_marker x) eqn:Ex; [|discriminate].
    intros H; inversion H; subst.
    exists [], rest. cbn. repeat split; auto; try lia.
    now apply (last_marker_from_none (S i)).
Qed.

Lemma eqb_false_of_neq (a b : string) : a <> b -> String.eqb a b = false.
Proof. intros H. now apply String.eqb_neq. Qed.

Lemma exclamation_scan_command_type pairs :
  forall command command_type command' command_type',
    for_in exclamation_step pairs (command, command_type)
    = ret (command', command_type') ->
    command_type' = command_type \/ command_type' = "exclamation"
    \/ command_type' = "exclamation_first".
Proof.
  induction pairs as [|[idx w] pairs IH]; intros c t c' t' H.
  - inversion H. now left.
  - cbn [for_in] in H. unfold exclamation_step at 1 in H.
    destruct w as [|a w]; [discriminate|]. cbn [str_item0 bind ret] in H.
    destruct (Ascii.eqb a "!").
    + destruct (Nat.eqb idx 0); cbn [bind ret] in H; apply IH in H;
        destruct H as [-> | [-> | ->]]; auto.
    + cbn [bind ret] in H. now apply IH in H.
Qed.

(** ** Malformed lines *)

(** C1, as stated, fails: on a line of two tokens the call does not come back
    with "no command"; the [IndexError] of the third [pop] leaves it. *)
Lemma malformed_line_counterexample :
  check_command "bot" [":c!u@h"; "PRIVMSG"] = raise IndexError.
Proof. reflexivity. Qed.

(** C1, amended: on every token sequence with fewer than three tokens, with
    no message body token, or with a message body of one token that is empty
    once its first character is stripped, the call raises [IndexError]: the
    exception leaves the call and nothing is printed. *)
Theorem malformed_line_raises bot_nick tokens :
  (length tokens < 3 \/
   length tokens = 3 \/
   exists raw_nick verb raw_chan first,
     tokens = [raw_nick; verb; raw_chan; first] /\ str_tail first = "") ->
  check_command bot_nick tokens = raise IndexError.
Proof.
  intros [H | [H | (raw_nick & verb & raw_chan & first & -> & Hfirst)]];
    try (apply check_command_short; lia).
  rewrite check_command_unfold, Hfirst. unfold classify.
  destruct (String.eqb raw_chan bot_nick); [reflexivity|].
  cbn. destruct bot_nick; reflexivity.
Qed.

Lemma malformed_line_raises_witness :
  length [":c!u@h"; "PRIVMSG"] < 3 /\
  check_command "bot" [":c!u@h"; "PRIVMSG"] = raise IndexError.
Proof.
  split; [cbn; lia|].
  apply (malformed_line_raises "bot" [":c!u@h"; "PRIVMSG"]). left. cbn. lia.
Defined.

(** ** The private branch *)

(** C2, as stated, fails: in the private line [hi  !help] (two spaces) the
    last word that carries the marker is [!help], at position 2, yet no
    command is selected: the zero-length word before it makes the scan
    raise. *)
Lemma private_last_marker_counterexample :
  last_marker ["hi"; ""; "!help"] = Some (2, "!help") /\
  check_command "bot" [":alice!user@host"; "PRIVMSG"; "bot"; ":hi"; ""; "!help"]
  = raise IndexError.
Proof. split; reflexivity. Qed.

(** The private line [!help !]: the last word that carries the marker is the
    bare [!]; the test [command == ""] after the scan takes the empty
    candidate for "no marker word found" and the command becomes [!help], the
    first word with its marker, although the comment above the branch keeps
    the first word for the case that no marker word is found.  The amended
    C2 says nothing of such lines. *)
Lemma private_bare_marker_last :
  exists f,
    check_command "bot" [":alice!user@host"; "PRIVMSG"; "bot"; ":!help"; "!"]
    = ret f /\
    last_marker (line f) = Some (1, "!") /\
    command f = "!help".
Proof. eexists. repeat split. Qed.

(** C2, amended: for every line that has a message body, whose target token
    equals the bot's nickname, whose message body has no zero-length word and
    in which the last word that carries the marker, if there is one, is more
    than the bare marker, the call returns with the flag set and the type
    [private]; the command is the last word that carries the marker,
    stripped of it, and the first word of the message body when no word
    carries the marker.  The command is printed with its type. *)
Theorem private_last_marker bot_nick raw_nick verb first rest :
  Forall nonempty (str_tail first :: rest) ->
  match last_marker (str_tail first :: rest) with
  | Some (_, w) => str_tail w <> ""
  | None => True
  end ->
  exists f,
    check_command bot_nick (raw_nick :: verb :: bot_nick :: first :: rest)
    = ret f /\
    private f = true /\
    line f = str_tail first :: rest /\
    command f = match last_marker (line f) with
                | Some (_, w) => str_tail w
                | None => str_tail first
                end /\
    command_type f = "private" /\
    addressing_mode (command_type f) = Some Private /\
    stdout f = [command f; "private"].
Proof.
  intros Hall Hbare.
  rewrite check_command_unfold, String.eqb_refl. unfold classify.
  rewrite (private_scan_last_marker _ Hall 0). cbn [bind ret].
  assert (Hfirst : (str_tail first =? "") = false)
    by (apply eqb_false_of_neq; now inversion Hall).
  assert (Hitem : list_item (str_tail first :: rest) 0 = ret (str_tail first))
    by reflexivity.
  revert Hbare Hitem. generalize (str_tail first :: rest) as words.
  intros words Hbare Hitem. unfold last_marker in *.
  destruct (last_marker_from 0 words) as [[i w]|] eqn:E.
  - apply eqb_false_of_neq in Hbare. cbn [bind ret]. rewrite Hbare. cbn [negb].
    eexists. split; [reflexivity|].
    cbn [private line command command_type stdout]. rewrite E, ?Hbare.
    repeat split.
  - cbn [String.eqb]. rewrite Hitem. cbn [bind ret]. rewrite Hfirst. cbn [negb].
    eexists. split; [reflexivity|].
    cbn [private line command command_type stdout]. rewrite E.
    repeat split.
Qed.

Lemma private_last_marker_witness :
  exists f,
    check_command "bot" [":alice!user@host"; "PRIVMSG"; "bot"; ":say"; "!a"; "!help"]
    = ret f /\
    command f = "help" /\ stdout f = ["help"; "private"].
Proof.
  destruct (private_last_marker "bot" ":alice!user@host" "PRIVMSG" ":say"
              ["!a"; "!help"]) as (f & Hf & _ & Hline & Hc & _ & _ & Hout).
  - repeat constructor; discriminate.
  - cbn. discriminate.
  - exists f. rewrite Hline in Hc. cbn in Hc. rewrite Hc in Hout. auto.
Defined.

(** ** The direct branch *)

(** C3, as stated, fails: with a zero-length second word (two spaces after
    [bot:]) the call does not return the second word as the command with the
    type [direct]; inspecting the first character of the word raises. *)
Lemma direct_second_word_counterexample :
  str_contains "bot" "bot:" = true /\
  length ["bot:"; ""; "wave"] >= 2 /\
  check_command "bot" [":bob!u@h"; "PRIVMSG"; "#chan"; ":bot:"; ""; "wave"]
  = raise IndexError.
Proof. repeat split. cbn. lia. Qed.

(** C3, amended: for every line whose target token is not the bot's
    nickname, whose first message-body word contains the nickname and whose
    second message-body word exists and is not empty, the call returns with
    the type [direct]; the command is the second word without its first
    character when that character is the digit 1, and the whole second word
    otherwise.  The command is printed with its type unless it is empty. *)
Theorem direct_second_word bot_nick raw_nick verb raw_chan first second rest :
  raw_chan <> bot_nick ->
  str_contains bot_nick (str_tail first) = true ->
  nonempty second ->
  exists f,
    check_command bot_nick (raw_nick :: verb :: raw_chan :: first :: second :: rest)
    = ret f /\
    private f = false /\
    line f = str_tail first :: second :: rest /\
    command f = (if first_char_is "1" second then str_tail second else second) /\
    command_type f = "direct" /\
    addressing_mode (command_type f) = Some Direct /\
    stdout f = if String.eqb (command f) "" then [] else [command f; "direct"].
Proof.
  intros Hchan Hnick Hsecond.
  rewrite check_command_unfold, (eqb_false_of_neq _ _ Hchan). unfold classify.
  cbn [list_item nth_error bind ret]. rewrite Hnick.
  destruct second as [|c t]; [now elim Hsecond|].
  cbn [str_item0 bind ret first_char_is str_tail].
  destruct (Ascii.eqb c "1"); cbn [bind ret];
    (eexists; split; [reflexivity|]);
    cbn [private line command command_type stdout];
    repeat split;
    match goal with |- context [String.eqb ?x ""] =>
      destruct (String.eqb x ""); reflexivity end.
Qed.

Lemma direct_second_word_witness :
  exists f,
    check_command "bot" [":bob!u@h"; "PRIVMSG"; "#chan"; ":bot:"; "1wave"] = ret f /\
    command f = "wave" /\ stdout f = ["wave"; "direct"].
Proof.
  destruct (direct_second_word "bot" ":bob!u@h" "PRIVMSG" "#chan" ":bot:"
              "1wave" []) as (f & Hf & _ & _ & Hc & _ & _ & Hout).
  - discriminate.
  - reflexivity.
  - discriminate.
  - exists f. cbn in Hc. rewrite Hc in Hout. auto.
Defined.

(** C5, as stated, fails: a channel line whose only message-body word names
    the bot does not fail silently; the [IndexError] of [line[1]] leaves the
    call. *)
Lemma direct_one_word_counterexample :
  str_contains "bot" "bot:" = true /\
  check_command "bot" [":bob!u@h"; "PRIVMSG"; "#chan"; ":bot:"] = raise IndexError.
Proof. split; reflexivity. Qed.

(** C5, amended: for every line whose target token is not the bot's
    nickname and whose message body is one word that contains the nickname,
    the call raises [IndexError]: the exception leaves the call and nothing is
    printed. *)
Theorem direct_one_word_raises bot_nick raw_nick verb raw_chan first :
  raw_chan <> bot_nick ->
  str_contains bot_nick (str_tail first) = true ->
  check_command bot_nick [raw_nick; verb; raw_chan; first] = raise IndexError.
Proof.
  intros Hchan Hnick.
  rewrite check_command_unfold, (eqb_false_of_neq _ _ Hchan). unfold classify.
  cbn [list_item nth_error bind ret]. now rewrite Hnick.
Qed.

Lemma direct_one_word_raises_witness :
  "#chan" <> "bot" /\ str_contains "bot" (str_tail ":bot:") = true /\
  check_command "bot" [":bob!u@h"; "PRIVMSG"; "#chan"; ":bot:"] = raise IndexError.
Proof.
  split; [discriminate|]. split; [reflexivity|].
  apply (direct_one_word_raises "bot" ":bob!u@h" "PRIVMSG" "#chan" ":bot:");
    [discriminate | reflexivity].
Defined.

(** ** The exclamation branch *)

(** C4, as stated, fails: in the channel line [hey  !ping] (two spaces) the
    last word that carries the marker is [!ping], at position 2, but the call
    does not return the command [ping] with the type [exclamation]; the
    zero-length word before it makes the scan raise. *)
Lemma exclamation_last_marker_counterexample :
  str_contains "bot" "hey" = false /\
  last_marker ["hey"; ""; "!ping"] = Some (2, "!ping") /\
  check_command "bot" [":c!u@h"; "PRIVMSG"; "#chan"; ":hey"; ""; "!ping"]
  = raise IndexError.
Proof. repeat split. Qed.

(** C4, amended: for every line whose target token is not the bot's
    nickname, whose first message-body word does not contain the nickname and
    whose message body has no zero-length word, the call returns; the last
    word that carries the marker gives the command, stripped of the marker,
    and the type is [exclamation_first] when that word is at position 0 and
    [exclamation] otherwise; when no word carries the marker the command and
    the type are empty and nothing is printed. *)
Theorem exclamation_last_marker bot_nick raw_nick verb raw_chan first rest :
  raw_chan <> bot_nick ->
  str_contains bot_nick (str_tail first) = false ->
  Forall nonempty (str_tail first :: rest) ->
  exists f,
    check_command bot_nick (raw_nick :: verb :: raw_chan :: first :: rest) = ret f /\
    private f = false /\
    line f = str_tail first :: rest /\
    match last_marker (line f) with
    | Some (i, w) =>
        command f = str_tail w /\
        command_type f = (if Nat.eqb i 0 then "exclamation_first"
                          else "exclamation") /\
        addressing_mode (command_type f)
        = Some (if Nat.eqb i 0 then ExclamationFirst else Exclamation) /\
        stdout f = if String.eqb (command f) "" then []
                   else [command f; command_type f]
    | None =>
        command f = "" /\ command_type f = "" /\
        addressing_mode (command_type f) = Some NoMode /\
        stdout f = []
    end.
Proof.
  intros Hchan Hnick Hall.
  rewrite check_command_unfold, (eqb_false_of_neq _ _ Hchan). unfold classify.
  cbn [list_item nth_error bind ret]. rewrite Hnick.
  unfold enumerate. rewrite (exclamation_scan_last_marker _ Hall 0 "" "").
  unfold last_marker.
  generalize (str_tail first :: rest) as words. intros words.
  destruct (last_marker_from 0 words) as [[i w]|] eqn:E; cbn [bind ret];
    (eexists; split; [reflexivity|]);
    cbn [private line command command_type stdout]; rewrite E.
  - repeat split.
    + now destruct (Nat.eqb i 0).
    + now destruct (String.eqb (str_tail w) "").
  - repeat split.
Qed.

Lemma exclamation_last_marker_witness :
  exists f,
    check_command "bot" [":c!u@h"; "PRIVMSG"; "#chan"; ":!a"; "hey"; "!ping"; "there"]
    = ret f /\
    command f = "ping" /\ stdout f = ["ping"; "exclamation"].
Proof.
  destruct (exclamation_last_marker "bot" ":c!u@h" "PRIVMSG" "#chan" ":!a"
              ["hey"; "!ping"; "there"]) as (f & Hf & _ & Hline & H).
  - discriminate.
  - reflexivity.
  - repeat constructor; discriminate.
  - rewrite Hline in H. cbn in H. destruct H as (Hc & Ht & _ & Hout).
    exists f. rewrite Hc, Ht in Hout. auto.
Defined.

(** C10, as stated, fails: in the channel line [!ping ! !pong] a bare marker
    follows the word [!ping], yet a command is printed, because the later
    word [!pong] overwrites the empty candidate in turn. *)
Lemma bare_marker_counterexample :
  check_command "bot" [":c!u@h"; "PRIVMSG"; "#chan"; ":!ping"; "!"; "!pong"]
  = ret (Frame (Some "c") false ["!ping"; "!"; "!pong"] "pong" "exclamation"
           ["pong"; "exclamation"]).
Proof. reflexivity. Qed.

(** C10, amended: in the exclamation branch, when a bare marker word comes
    after a word that carries the marker and a command, and no later word
    carries the marker, nothing is printed: the call raises when the message
    body has a zero-length word and otherwise returns with an empty command
    and the type [exclamation]. *)
Theorem bare_marker_last_prints_nothing
    bot_nick raw_nick verb raw_chan first rest pre cmd mid post :
  raw_chan <> bot_nick ->
  str_contains bot_nick (str_tail first) = false ->
  str_tail first :: rest = pre ++ String "!" cmd :: mid ++ "!" :: post ->
  nonempty cmd ->
  Forall (fun w => carries_marker w = false) post ->
  printed (check_command bot_nick (raw_nick :: verb :: raw_chan :: first :: rest))
  = [] /\
  (Forall nonempty (str_tail first :: rest) ->
   check_command bot_nick (raw_nick :: verb :: raw_chan :: first :: rest)
   = ret (Frame (re_search_sender raw_nick) false (str_tail first :: rest)
            "" "exclamation" [])).
Proof.
  intros Hchan Hnick Hshape _ Hpost.
  assert (Hret : Forall nonempty (str_tail first :: rest) ->
                 check_command bot_nick (raw_nick :: verb :: raw_chan :: first :: rest)
                 = ret (Frame (re_search_sender raw_nick) false
                          (str_tail first :: rest) "" "exclamation" [])).
  { intros Hall.
    rewrite check_command_unfold, (eqb_false_of_neq _ _ Hchan). unfold classify.
    cbn [list_item nth_error bind ret]. rewrite Hnick.
    unfold enumerate. rewrite (exclamation_scan_last_marker _ Hall 0 "" "").
    assert (E : last_marker_from 0 (str_tail first :: rest)
                = Some (0 + length (pre ++ String "!" cmd :: mid), "!")).
    { rewrite Hshape.
      change (pre ++ String "!" cmd :: mid ++ "!" :: post)
        with (pre ++ (String "!" cmd :: mid) ++ "!" :: post).
      rewrite app_assoc. now apply last_marker_from_app. }
    rewrite E, length_app. cbn [length].
    replace (0 + (length pre + S (length mid))) with (S (length pre + length mid))
      by lia.
    reflexivity. }
  split; [|exact Hret].
  destruct (in_dec string_dec "" (str_tail first :: rest)) as [Hin | Hnin].
  - rewrite check_command_unfold, (eqb_false_of_neq _ _ Hchan). unfold classify.
    cbn [list_item nth_error bind ret]. rewrite Hnick.
    unfold enumerate. now rewrite (exclamation_scan_empty_word _ Hin).
  - rewrite Hret; [reflexivity|].
    apply Forall_forall. intros w Hw Hempty. apply Hnin. now rewrite <- Hempty.
Qed.

Lemma bare_marker_last_prints_nothing_witness :
  printed
    (check_command "bot"
       [":c!u@h"; "PRIVMSG"; "#chan"; ":say"; "!ping"; "now"; "!"; "ok"])
  = [].
Proof.
  apply (bare_marker_last_prints_nothing "bot" ":c!u@h" "PRIVMSG" "#chan" ":say"
           ["!ping"; "now"; "!"; "ok"] ["say"] "ping" ["now"] ["ok"]).
  - discriminate.
  - reflexivity.
  - reflexivity.
  - discriminate.
  - repeat constructor.
Defined.

(** ** Zero-length words *)

(** C6, as stated, fails: a zero-length word is not skipped; in a private
    line and in a channel line alike the scan raises when it inspects the
    first character of the word, although a later word carries the marker. *)
Lemma empty_word_counterexample :
  check_command "bot" [":a!u@h"; "PRIVMSG"; "bot"; ":hi"; ""; "!help"]
  = raise IndexError /\
  check_command "bot" [":a!u@h"; "PRIVMSG"; "#chan"; ":hi"; ""; "!help"]
  = raise IndexError.
Proof. split; reflexivity. Qed.

(** C6, amended: a zero-length word never carries the marker; for every
    message body that contains a zero-length word, the call raises
    [IndexError] when the scan of the private branch (the target token is the
    bot's nickname) or of the exclamation branch (it is not, and the first
    message-body word does not contain the nickname) runs: the word is not
    skipped, and nothing is printed. *)
Theorem empty_word_raises bot_nick raw_nick verb raw_chan tokens :
  carries_marker "" = false /\
  (In "" (message_body tokens) ->
   raw_chan = bot_nick \/
     str_contains bot_nick (hd "" (message_body tokens)) = false ->
   check_command bot_nick (raw_nick :: verb :: raw_chan :: tokens)
   = raise IndexError).
Proof.
  split; [reflexivity|].
  destruct tokens as [|first rest]; [intros []|]. cbn [message_body hd].
  intros Hin Hbranch. rewrite check_command_unfold. unfold classify.
  destruct (String.eqb raw_chan bot_nick) eqn:E.
  - now rewrite (private_scan_empty_word _ Hin).
  - destruct Hbranch as [-> | Hnick]; [now rewrite String.eqb_refl in E|].
    cbn [list_item nth_error bind ret]. rewrite Hnick.
    unfold enumerate. now rewrite (exclamation_scan_empty_word _ Hin).
Qed.

Lemma empty_word_raises_witness :
  In "" (message_body [":hi"; ""; "!help"]) /\
  check_command "bot" [":a!u@h"; "PRIVMSG"; "bot"; ":hi"; ""; "!help"]
  = raise IndexError.
Proof.
  split; [cbn; auto|].
  apply (empty_word_raises "bot" ":a!u@h" "PRIVMSG" "bot" [":hi"; ""; "!help"]).
  - cbn. auto.
  - now left.
Defined.

(** ** One command, one mode *)

(** C7, as stated, fails: on a line of three tokens the call raises at the
    strip of the first message-body word, before any of the three branches:
    no frame is left, so none of the five modes is selected. *)
Lemma one_command_one_mode_counterexample :
  check_command "bot" [":c!u@h"; "PRIVMSG"; "#chan"] = raise IndexError.
Proof. reflexivity. Qed.

(** C7, amended: every call prints nothing or one command with its type, the
    command then not being empty.  A call that returns was given a line with
    a message body; its flag says whether the target token is the bot's
    nickname, its body is the message body of the line, and its type stands
    for exactly one of the five addressing modes, fixed by the first of the
    three branches whose condition holds for the line: [private] when the
    target token is the nickname; otherwise [direct] when the first
    message-body word contains the nickname; otherwise what the exclamation
    scan leaves, [exclamation_first] or [exclamation] by the position of the
    last word that carries the marker, and the empty type when there is
    none.  A call that raises selects no mode. *)
Theorem one_command_one_mode bot_nick tokens :
  (printed (check_command bot_nick tokens) = [] \/
   exists c t, printed (check_command bot_nick tokens) = [c; t] /\ c <> "") /\
  forall f,
    check_command bot_nick tokens = ret f ->
    exists raw_nick verb raw_chan first rest,
      tokens = raw_nick :: verb :: raw_chan :: first :: rest /\
      private f = String.eqb raw_chan bot_nick /\
      line f = str_tail first :: rest /\
      (stdout f = [] \/ stdout f = [command f; command_type f]) /\
      (exists! m, addressing_mode (command_type f) = Some m) /\
      (raw_chan = bot_nick -> command_type f = "private") /\
      (raw_chan <> bot_nick ->
       str_contains bot_nick (str_tail first) = true ->
       command_type f = "direct") /\
      (raw_chan <> bot_nick ->
       str_contains bot_nick (str_tail first) = false ->
       command_type f
       = match last_marker (str_tail first :: rest) with
         | Some (i, _) => if Nat.eqb i 0 then "exclamation_first"
                          else "exclamation"
         | None => ""
         end).
Proof.
  destruct tokens as [|raw_nick [|verb [|raw_chan [|first rest]]]];
    try (split; [now left | discriminate]).
  rewrite check_command_unfold.
  destruct (classify bot_nick (String.eqb raw_chan bot_nick) (str_tail first :: rest))
    as [e | [c t]] eqn:Hc; [split; [now left | discriminate]|].
  cbn [bind printed ret stdout].
  assert (Hout : (if negb (String.eqb c "") then [c; t] else []) = [] \/
                 ((if negb (String.eqb c "") then [c; t] else []) = [c; t] /\
                  c <> "")).
  { destruct (String.eqb c "") eqn:E; [now left | right].
    split; [reflexivity|]. now apply String.eqb_neq. }
  split; [destruct Hout as [-> | [-> Hne]]; [now left | right; eauto]|].
  intros f H. inversion H; subst f; clear H.
  exists raw_nick, verb, raw_chan, first, rest.
  cbn [private line command command_type stdout].
  assert (Ht : (String.eqb raw_chan bot_nick = true /\ t = "private") \/
               (String.eqb raw_chan bot_nick = false /\
                str_contains bot_nick (str_tail first) = true /\ t = "direct") \/
               (String.eqb raw_chan bot_nick = false /\
                str_contains bot_nick (str_tail first) = false /\
                t = match last_marker (str_tail first :: rest) with
                    | Some (i, _) => if Nat.eqb i 0 then "exclamation_first"
                                     else "exclamation"
                    | None => ""
                    end)).
  { unfold classify in Hc. destruct (String.eqb raw_chan bot_nick).
    - left. split; [reflexivity|].
      destruct (for_in private_step (str_tail first :: rest) "") as [e | c0];
        [discriminate|]. cbn [bind] in Hc.
      destruct (if String.eqb c0 "" then list_item (str_tail first :: rest) 0
                else ret c0) as [e | c1]; [discriminate|].
      now inversion Hc.
    - right. cbn [list_item nth_error bind ret] in Hc.
      destruct (str_contains bot_nick (str_tail first)).
      + left. repeat split.
        destruct (list_item (str_tail first :: rest) 1) as [e | w]; [discriminate|].
        cbn [bind] in Hc. destruct (str_item0 w) as [e | a]; [discriminate|].
        cbn [bind] in Hc. destruct (Ascii.eqb a "1"); now inversion Hc.
      + right. repeat split. unfold enumerate in Hc.
        destruct (in_dec string_dec "" (str_tail first :: rest)) as [Hin | Hnin].
        * rewrite (exclamation_scan_empty_word _ Hin) in Hc. discriminate.
        * assert (Hall : Forall nonempty (str_tail first :: rest)).
          { apply Forall_forall. intros w Hw Hempty. apply Hnin.
            now rewrite <- Hempty. }
          rewrite (exclamation_scan_last_marker _ Hall 0) in Hc.
          unfold last_marker.
          destruct (last_marker_from 0 (str_tail first :: rest)) as [[i w]|];
            now inversion Hc. }
  split; [reflexivity|]. split; [reflexivity|]. split; [reflexivity|].
  split; [tauto|].
  split.
  { assert (exists m, addressing_mode t = Some m) as [m Hm].
    { destruct Ht as [[_ ->] | [(_ & _ & ->) | (_ & _ & ->)]];
        try (eexists; reflexivity).
      destruct (last_marker (str_tail first :: rest)) as [[i w]|];
        [destruct (Nat.eqb i 0)|]; eexists; reflexivity. }
    exists m. split; [exact Hm|]. intros m' Hm'. congruence. }
  destruct Ht as [[E ->] | [(E & En & ->) | (E & En & ->)]];
    repeat split; intros; try congruence;
    try (apply String.eqb_neq in E; contradiction);
    try (apply String.eqb_eq in E; contradiction);
    try (subst raw_chan; rewrite String.eqb_refl in E; discriminate).
Qed.

Lemma one_command_one_mode_witness :
  exists raw_nick verb raw_chan first rest,
    [":c!u@h"; "PRIVMSG"; "#chan"; ":hey"; "!ping"; "there"]
    = raw_nick :: verb :: raw_chan :: first :: rest /\
    false = String.eqb raw_chan "bot" /\
    ["hey"; "!ping"; "there"] = str_tail first :: rest /\
    exists! m, addressing_mode "exclamation" = Some m.
Proof.
  destruct (proj2 (one_command_one_mode "bot"
    [":c!u@h"; "PRIVMSG"; "#chan"; ":hey"; "!ping"; "there"])
    (Frame (Some "c") false ["hey"; "!ping"; "there"] "ping" "exclamation"
       ["ping"; "exclamation"])
    eq_refl)
    as (raw_nick & verb & raw_chan & first & rest & H1 & H2 & H3 & _ & H5 & _).
  exists raw_nick, verb, raw_chan, first, rest. auto.
Defined.

(** ** The prefix token *)

(** C9: two lines that differ only in their prefix token have the same
    outcome: both calls raise the same exception, or both return with the
    same flag, message body, command, type and printed lines. *)
Theorem prefix_token_irrelevant bot_nick prefix1 prefix2 rest :
  outcome (check_command bot_nick (prefix1 :: rest))
  = outcome (check_command bot_nick (prefix2 :: rest)).
Proof.
  destruct rest as [|verb [|raw_chan [|first rest]]]; try reflexivity.
  rewrite !check_command_unfold.
  destruct (classify bot_nick (String.eqb raw_chan bot_nick) (str_tail first :: rest))
    as [e | [c t]]; reflexivity.
Qed.

(** ** The lists of the configuration *)

Lemma list_item_middle {A : Type} (done : list A) x todo :
  list_item (done ++ x :: todo) (length done) = ret x.
Proof.
  unfold list_item. now rewrite nth_error_app2, Nat.sub_diag by lia.
Qed.

Lemma list_set_middle {A : Type} (done : list A) x y todo :
  list_set (done ++ x :: todo) (length done) y = ret (done ++ y :: todo).
Proof.
  induction done as [|d done IH]; cbn; [reflexivity|]. now rewrite IH.
Qed.

Lemma chanlist_step_middle done x todo :
  chanlist_step (done ++ x :: todo) (length done)
  = if String.eqb (str_strip x) "" then raise IndexError
    else ret (done ++ normalise_chan x :: todo).
Proof.
  unfold chanlist_step, normalise_chan.
  rewrite list_item_middle. cbn [bind ret].
  rewrite list_set_middle. cbn [bind ret].
  rewrite list_item_middle. cbn [bind ret].
  destruct (str_strip x) as [|c t]; [reflexivity|].
  cbn [str_item0 bind ret first_char_is String.eqb].
  destruct (Ascii.eqb c "#"); cbn [negb]; [reflexivity|].
  apply list_set_middle.
Qed.

Lemma chanlist_loop todo :
  forall done,
    for_in chanlist_step (seq (length done) (length todo)) (done ++ todo)
    = if forallb (fun x => negb (String.eqb (str_strip x) "")) todo
      then ret (done ++ map normalise_chan todo)
      else raise IndexError.
Proof.
  induction todo as [|x todo IH]; intros done.
  - reflexivity.
  - cbn [length seq for_in forallb map]. rewrite chanlist_step_middle.
    destruct (String.eqb (str_strip x) ""); [reflexivity|]. cbn [bind ret negb andb].
    specialize (IH (done ++ [normalise_chan x])).
    rewrite length_app, Nat.add_1_r, <- app_assoc in IH. cbn [app] in IH.
    rewrite IH, <- app_assoc. reflexivity.
Qed.

Lemma oplist_step_middle done x todo :
  oplist_step (done ++ x :: todo) (length done) = ret (done ++ str_strip x :: todo).
Proof.
  unfold oplist_step. rewrite list_item_middle. cbn [bind ret].
  now rewrite list_set_middle.
Qed.

Lemma oplist_loop todo :
  forall done,
    for_in oplist_step (seq (length done) (length todo)) (done ++ todo)
    = ret (done ++ map str_strip todo).
Proof.
  induction todo as [|x todo IH]; intros done.
  - reflexivity.
  - cbn [length seq for_in map]. rewrite oplist_step_middle. cbn [bind ret].
    specialize (IH (done ++ [str_strip x])).
    rewrite length_app, Nat.add_1_r, <- app_assoc in IH. cbn [app] in IH.
    rewrite IH, <- app_assoc. reflexivity.
Qed.

Lemma normalise_chan_hash x : first_char_is "#" (normalise_chan x) = true.
Proof.
  unfold normalise_chan.
  destruct (first_char_is "#" (str_strip x)) eqn:E; [exact E | reflexivity].
Qed.

Lemma get_configuration_eq int config :
  get_configuration int config
  = (port <- int (Port config) ;;
     let chanlist := str_split (separator (Chans config)) (Chans config) in
     let oplist := str_split (separator (Botop config)) (Botop config) in
     if forallb (fun x => negb (String.eqb (str_strip x) "")) chanlist
     then ret (Configuration (Host config) port (Nick config) (Realname config)
                 (Ident config) (map normalise_chan chanlist)
                 (map str_strip oplist))
     else raise IndexError).
Proof.
  unfold get_configuration, separator.
  destruct (int (Port config)) as [e | port]; [reflexivity|]. cbn [bind].
  cbv zeta.
  assert (Hc : forall l, for_in chanlist_step (seq 0 (length l)) l
                         = if forallb (fun x => negb (String.eqb (str_strip x) "")) l
                           then ret (map normalise_chan l) else raise IndexError)
    by (intros l; exact (chanlist_loop l [])).
  assert (Ho : forall l, for_in oplist_step (seq 0 (length l)) l
                         = ret (map str_strip l))
    by (intros l; exact (oplist_loop l [])).
  destruct (str_contains "," (Chans config)); rewrite Hc;
    match goal with |- context [forallb ?f ?l] => destruct (forallb f l) end;
    try reflexivity; cbn [bind ret];
    destruct (str_contains "," (Botop config)); rewrite Ho; reflexivity.
Qed.

Lemma prefix_empty s : prefix "" s = true.
Proof. now destruct s. Qed.

Lemma str_contains_char c s : str_contains (String c "") s = has_char c s.
Proof.
  induction s as [|c' t IH]; [reflexivity|].
  cbn [str_contains has_char prefix]. rewrite IH.
  destruct (ascii_dec c c') as [<- | Hne].
  - now rewrite prefix_empty, Ascii.eqb_refl.
  - assert (E : Ascii.eqb c' c = false) by (apply Ascii.eqb_neq; congruence).
    now rewrite E.
Qed.

Lemma separator_char value :
  separator value = (if has_char "," value then "," else " ")%char.
Proof. unfold separator. now rewrite str_contains_char. Qed.

Lemma str_split_not_nil sep s : str_split sep s <> [].
Proof.
  destruct s as [|c t]; cbn; [discriminate|].
  destruct (Ascii.eqb c sep); [discriminate|].
  destruct (str_split sep t); discriminate.
Qed.

(** The pieces of a split, joined with the separator, are the value that was
    split, and no piece holds the separator. *)
Lemma str_join_split sep s : str_join sep (str_split sep s) = s.
Proof.
  induction s as [|c t IH]; [reflexivity|].
  cbn [str_split]. destruct (Ascii.eqb c sep) eqn:E.
  - apply Ascii.eqb_eq in E. subst c.
    pose proof (str_split_not_nil sep t) as Hne.
    destruct (str_split sep t) as [|w ws]; [now elim Hne|].
    cbn [str_join String.append] in *. now rewrite IH.
  - pose proof (str_split_not_nil sep t) as Hne.
    destruct (str_split sep t) as [|w ws]; [now elim Hne|].
    destruct ws as [|w' ws]; cbn [str_join String.append] in *; now rewrite IH.
Qed.

Lemma str_split_pieces sep s :
  Forall (fun w => has_char sep w = false) (str_split sep s).
Proof.
  induction s as [|c t IH]; [repeat constructor|].
  cbn [str_split]. destruct (Ascii.eqb c sep) eqn:E.
  - constructor; [reflexivity | exact IH].
  - destruct (str_split sep t) as [|w ws]; [repeat constructor; cbn; now rewrite E|].
    inversion IH; subst. constructor; [cbn; now rewrite E | assumption].
Qed.

(** C8: whenever [get_configuration] returns, the channels are the pieces of
    the [chans] value, split on the comma when the value has one and on the
    space otherwise, each stripped and with a hash put before it unless it
    begins with one, in their order; the operators are the pieces of the
    [botop] value, split the same way and stripped; and every channel begins
    with a hash. *)
Theorem configuration_lists int config r :
  get_configuration int config = ret r ->
  chans r = map normalise_chan (str_split (separator (Chans config)) (Chans config)) /\
  botop r = map str_strip (str_split (separator (Botop config)) (Botop config)) /\
  separator (Chans config) = (if has_char "," (Chans config) then "," else " ")%char /\
  separator (Botop config) = (if has_char "," (Botop config) then "," else " ")%char /\
  Forall (fun chan => first_char_is "#" chan = true) (chans r).
Proof.
  rewrite get_configuration_eq.
  destruct (int (Port config)) as [e | p]; [discriminate|]. cbn [bind]. cbv zeta.
  destruct (forallb _ _); [|discriminate].
  intros H. inversion H; subst r; clear H. cbn [chans botop].
  repeat split; try apply separator_char.
  apply Forall_forall. intros chan Hin. apply in_map_iff in Hin.
  destruct Hin as (x & <- & _). apply normalise_chan_hash.
Qed.

Lemma configuration_lists_witness :
  exists r,
    get_configuration (fun _ => ret 6667%Z)
      (IrcSection "irc.freenode.net" "6667" "GorillaBot" "GorillaBot" "GorillaBot"
         "#a, b ,##c" "op1 op2") = ret r /\
    chans r = ["#a"; "#b"; "##c"] /\ botop r = ["op1"; "op2"] /\
    Forall (fun chan => first_char_is "#" chan = true) (chans r).
Proof.
  eexists. split; [reflexivity|].
  destruct (configuration_lists (fun _ => ret 6667%Z)
    (IrcSection "irc.freenode.net" "6667" "GorillaBot" "GorillaBot" "GorillaBot"
       "#a, b ,##c" "op1 op2") _ eq_refl) as (Hc & Ho & _ & _ & Hall).
  repeat split; assumption.
Defined.

(** ** The sender *)

Lemma lazy_group_upto_mark nick rest :
  has_char "!" nick = false ->
  has_char "010" nick = false ->
  lazy_group (nick ++ String "!" rest) = Some nick.
Proof.
  induction nick as [|c nick IH]; cbn [String.append lazy_group has_char].
  - reflexivity.
  - intros Hmark Hfeed.
    apply orb_false_iff in Hmark. destruct Hmark as [Hc Hmark].
    apply orb_false_iff in Hfeed. destruct Hfeed as [Hc' Hfeed].
    rewrite Hc, Hc', (IH Hmark Hfeed). reflexivity.
Qed.

Lemma re_search_sender_no_colon s :
  has_char ":" s = false -> re_search_sender s = None.
Proof.
  induction s as [|c s IH]; cbn [re_search_sender has_char]; [reflexivity|].
  intros H. apply orb_false_iff in H. destruct H as [Hc H].
  rewrite Hc. now apply IH.
Qed.

Lemma lazy_group_no_mark s : has_char "!" s = false -> lazy_group s = None.
Proof.
  induction s as [|c s IH]; cbn [lazy_group has_char]; [reflexivity|].
  intros H. apply orb_false_iff in H. destruct H as [Hc H].
  rewrite Hc, (IH H). now destruct (Ascii.eqb c "010").
Qed.

Lemma re_search_sender_no_mark s :
  has_char "!" s = false -> re_search_sender s = None.
Proof.
  induction s as [|c s IH]; cbn [re_search_sender has_char]; [reflexivity|].
  intros H. apply orb_false_iff in H. destruct H as [Hc H].
  rewrite (lazy_group_no_mark _ H), (IH H). now destruct (Ascii.eqb c ":").
Qed.

Lemma re_search_sender_found pre nick rest :
  has_char ":" pre = false ->
  has_char "!" nick = false ->
  has_char "010" nick = false ->
  re_search_sender (pre ++ String ":" (nick ++ String "!" rest)) = Some nick.
Proof.
  intros Hpre Hmark Hfeed.
  induction pre as [|c pre IH]; cbn [String.append re_search_sender].
  - cbn. now rewrite lazy_group_upto_mark.
  - cbn [has_char] in Hpre. apply orb_false_iff in Hpre.
    destruct Hpre as [Hc Hpre]. rewrite Hc. now apply IH.
Qed.

Lemma check_command_sender bot_nick raw_nick tokens f :
  check_command bot_nick (raw_nick :: tokens) = ret f ->
  sender f = re_search_sender raw_nick.
Proof.
  destruct tokens as [|verb [|raw_chan [|first rest]]]; try discriminate.
  rewrite check_command_unfold.
  destruct (classify bot_nick (String.eqb raw_chan bot_nick) (str_tail first :: rest))
    as [e | [c t]]; [discriminate|].
  cbn [bind]. intros H. now inversion H.
Qed.

(** X1: when the prefix token holds a colon, then a nickname free of
    exclamation marks and line feeds, then an exclamation mark, and no colon
    comes before that colon, a call that returns has that nickname as the
    sender, whatever follows the exclamation mark. *)
Theorem sender_is_nickname_of_prefix bot_nick pre nick rest tokens f :
  has_char ":" pre = false ->
  has_char "!" nick = false ->
  has_char "010" nick = false ->
  check_command bot_nick
    ((pre ++ String ":" (nick ++ String "!" rest))%string :: tokens) = ret f ->
  sender f = Some nick.
Proof.
  intros Hpre Hmark Hfeed H.
  rewrite (check_command_sender _ _ _ _ H). now apply re_search_sender_found.
Qed.

Lemma sender_is_nickname_of_prefix_witness :
  sender (Frame (Some "alice") true ["!help"] "help" "private" ["help"; "private"])
  = Some "alice".
Proof.
  apply (sender_is_nickname_of_prefix "bot" "" "alice" "user@host"
           ["PRIVMSG"; "bot"; ":!help"]); reflexivity.
Defined.

(** X2: a prefix token without a colon, or without an exclamation mark (a
    server name), gives no sender, and the call does not fail for it: it
    returns whenever a call with any other prefix token returns. *)
Theorem sender_absent bot_nick raw_nick tokens :
  has_char ":" raw_nick = false \/ has_char "!" raw_nick = false ->
  (forall f, check_command bot_nick (raw_nick :: tokens) = ret f ->
             sender f = None) /\
  (forall other f, check_command bot_nick (other :: tokens) = ret f ->
                   exists f', check_command bot_nick (raw_nick :: tokens) = ret f').
Proof.
  intros Hraw. split.
  - intros f H. rewrite (check_command_sender _ _ _ _ H).
    destruct Hraw as [Hraw | Hraw];
      [now apply re_search_sender_no_colon | now apply re_search_sender_no_mark].
  - intros other f.
    destruct tokens as [|verb [|raw_chan [|first rest]]]; try discriminate.
    rewrite !check_command_unfold.
    destruct (classify bot_nick (String.eqb raw_chan bot_nick) (str_tail first :: rest))
      as [e | [c t]]; [discriminate|].
    intros _. eexists. reflexivity.
Qed.

Lemma sender_absent_witness :
  has_char "!" "irc.example.net" = false /\
  sender (Frame None true ["help"] "help" "private" ["help"; "private"]) = None.
Proof.
  split; [reflexivity|].
  exact (proj1 (sender_absent "bot" "irc.example.net" ["PRIVMSG"; "bot"; ":help"]
                  (or_introl eq_refl))
           (Frame None true ["help"] "help" "private" ["help"; "private"])
           eq_refl).
Defined.

(** ** The verb token *)

(** X3: the second token is popped and never looked at: two lines that differ
    only in it are told apart by nothing, so a line that is not a [PRIVMSG]
    is classified like one. *)
Theorem verb_token_ignored bot_nick raw_nick verb1 verb2 rest :
  check_command bot_nick (raw_nick :: verb1 :: rest)
  = check_command bot_nick (raw_nick :: verb2 :: rest).
Proof.
  destruct rest as [|raw_chan [|first rest]]; reflexivity.
Qed.

(** ** When the call returns *)

Lemma no_empty_word words : ~ In "" words -> Forall nonempty words.
Proof.
  intros H. apply Forall_forall. intros w Hw Hempty. apply H. now rewrite <- Hempty.
Qed.

Lemma empty_word_or_none words : In "" words \/ Forall nonempty words.
Proof.
  destruct (in_dec string_dec "" words) as [H | H];
    [now left | right; now apply no_empty_word].
Qed.

Lemma classify_returns_iff bot_nick private first rest :
  (exists r, classify bot_nick private (first :: rest) = ret r) <->
  if private || negb (str_contains bot_nick first)
  then Forall nonempty (first :: rest)
  else exists second rest', rest = second :: rest' /\ nonempty second.
Proof.
  unfold classify. destruct private; cbn [orb].
  - destruct (empty_word_or_none (first :: rest)) as [Hin | Hall].
    + rewrite (private_scan_empty_word _ Hin). split.
      * intros [r H]. discriminate.
      * intros Hall. exfalso.
        rewrite Forall_forall in Hall. now apply (Hall "" Hin).
    + split; [intros _; exact Hall|]. intros _.
      rewrite (private_scan_last_marker _ Hall 0). cbn [bind ret].
      match goal with |- context [String.eqb ?c ""] =>
        destruct (String.eqb c "") end; cbn; eexists; reflexivity.
  - cbn [list_item nth_error bind ret].
    destruct (str_contains bot_nick first); cbn [negb].
    + destruct rest as [|second rest'].
      * split; [intros [r H]; discriminate|].
        intros (s & r' & H & _). discriminate.
      * cbn [list_item nth_error bind ret].
        destruct second as [|c t].
        -- split; [intros [r H]; discriminate|].
           intros (s & r' & H & Hs). inversion H; subst. now elim Hs.
        -- split.
           ++ intros _. exists (String c t), rest'. split; [reflexivity | discriminate].
           ++ intros _. cbn. destruct (Ascii.eqb c "1"); eexists; reflexivity.
    + unfold enumerate.
      destruct (empty_word_or_none (first :: rest)) as [Hin | Hall].
      * rewrite (exclamation_scan_empty_word _ Hin). split.
        -- intros [r H]. discriminate.
        -- intros Hall. exfalso.
           rewrite Forall_forall in Hall. now apply (Hall "" Hin).
      * split; [intros _; exact Hall|]. intros _.
        rewrite (exclamation_scan_last_marker _ Hall 0). eexists. reflexivity.
Qed.

(** X4: the call returns exactly when the line has a fourth token and, in
    the private and the exclamation branch, the message body has no
    zero-length word, or, in the direct branch, the message body has a second
    word that is not empty; in the direct branch the other words may be
    empty.  In every other case it raises. *)
Theorem check_command_returns_iff bot_nick raw_nick verb raw_chan tokens :
  (exists f, check_command bot_nick (raw_nick :: verb :: raw_chan :: tokens) = ret f)
  <->
  exists first rest,
    tokens = first :: rest /\
    if String.eqb raw_chan bot_nick || negb (str_contains bot_nick (str_tail first))
    then Forall nonempty (str_tail first :: rest)
    else exists second rest', rest = second :: rest' /\ nonempty second.
Proof.
  destruct tokens as [|first rest].
  - split; [intros [f H]; discriminate | intros (a & b & H & _); discriminate].
  - rewrite check_command_unfold.
    pose proof (classify_returns_iff bot_nick (String.eqb raw_chan bot_nick)
                  (str_tail first) rest) as Hiff.
    split.
    + intros [f H]. exists first, rest. split; [reflexivity|]. apply Hiff.
      destruct (classify bot_nick (String.eqb raw_chan bot_nick) (str_tail first :: rest))
        as [e | r]; [discriminate | eexists; reflexivity].
    + intros (a & b & Heq & H). inversion Heq; subst a b. apply Hiff in H.
      destruct H as [[c t] ->]. eexists. reflexivity.
Qed.

(** ** A printed command has a mode *)

Lemma exclamation_scan_invariant pairs :
  forall command command_type command' command_type',
    (command = "" \/ command_type = "exclamation"
     \/ command_type = "exclamation_first") ->
    for_in exclamation_step pairs (command, command_type)
    = ret (command', command_type') ->
    command' = "" \/ command_type' = "exclamation"
    \/ command_type' = "exclamation_first".
Proof.
  induction pairs as [|[idx w] pairs IH]; intros c t c' t' Hinv H.
  - inversion H; subst. exact Hinv.
  - cbn [for_in] in H. unfold exclamation_step at 1 in H.
    destruct w as [|a w]; [discriminate|]. cbn [str_item0 bind ret] in H.
    destruct (Ascii.eqb a "!").
    + destruct (Nat.eqb idx 0); cbn [bind ret] in H;
        apply IH in H; auto.
    + cbn [bind ret] in H. now apply IH in H.
Qed.

(** X5: whenever a command is printed, it is not empty and the type printed
    with it is [private], [direct], [exclamation] or [exclamation_first]: a
    command never goes out with the empty type that stands for no mode. *)
Theorem printed_command_has_mode bot_nick tokens c t :
  printed (check_command bot_nick tokens) = [c; t] ->
  c <> "" /\
  exists m, addressing_mode t = Some m /\ m <> NoMode.
Proof.
  destruct tokens as [|raw_nick [|verb [|raw_chan [|first rest]]]];
    try discriminate.
  rewrite check_command_unfold.
  destruct (classify bot_nick (String.eqb raw_chan bot_nick) (str_tail first :: rest))
    as [e | [c0 t0]] eqn:Hc; [discriminate|].
  cbn [bind printed ret stdout].
  destruct (String.eqb c0 "") eqn:E; cbn [negb]; [discriminate|].
  intros H. inversion H; subst c0 t0; clear H.
  split; [now apply String.eqb_neq|].
  unfold classify in Hc. destruct (String.eqb raw_chan bot_nick).
  - destruct (for_in private_step (str_tail first :: rest) "") as [e | c0];
      [discriminate|]. cbn [bind] in Hc.
    destruct (if String.eqb c0 "" then list_item (str_tail first :: rest) 0
              else ret c0) as [e | c1]; [discriminate|].
    inversion Hc; subst. exists Private. split; [reflexivity | discriminate].
  - cbn [list_item nth_error bind ret] in Hc.
    destruct (str_contains bot_nick (str_tail first)).
    + destruct (list_item (str_tail first :: rest) 1) as [e | w]; [discriminate|].
      cbn [bind] in Hc. destruct (str_item0 w) as [e | a]; [discriminate|].
      cbn [bind] in Hc.
      destruct (Ascii.eqb a "1"); inversion Hc; subst;
        exists Direct; (split; [reflexivity | discriminate]).
    + apply exclamation_scan_invariant in Hc; [|now left].
      destruct Hc as [-> | [-> | ->]].
      * discriminate.
      * exists Exclamation. split; [reflexivity | discriminate].
      * exists ExclamationFirst. split; [reflexivity | discriminate].
Qed.

Lemma printed_command_has_mode_witness :
  "ping" <> "" /\ exists m, addressing_mode "exclamation" = Some m /\ m <> NoMode.
Proof.
  apply (printed_command_has_mode "bot"
           [":c!u@h"; "PRIVMSG"; "#chan"; ":hey"; "!ping"; "there"]).
  reflexivity.
Defined.

(** ** Stripping *)

Lemma str_rstrip_keeps_head c t :
  is_space c = false -> str_rstrip (String c t) = String c (str_rstrip t).
Proof.
  intros Hc. cbn [str_rstrip]. rewrite Hc. now destruct (str_rstrip t).
Qed.

Lemma str_lstrip_head s :
  str_lstrip s = "" \/
  exists c t, str_lstrip s = String c t /\ is_space c = false.
Proof.
  induction s as [|c t IH]; [now left|].
  cbn [str_lstrip]. destruct (is_space c) eqn:E; [exact IH|].
  right. now exists c, t.
Qed.

Lemma str_rstrip_last s :
  match str_rstrip s with
  | EmptyString => True
  | String c t => is_space (last_char c t) = false
  end.
Proof.
  induction s as [|c t IH]; [exact I|].
  cbn [str_rstrip]. destruct (str_rstrip t) as [|c' t'].
  - destruct (is_space c) eqn:E; [exact I | exact E].
  - exact IH.
Qed.

Lemma str_strip_head x :
  str_strip x = "" \/
  exists c t, str_strip x = String c t /\ is_space c = false.
Proof.
  unfold str_strip.
  destruct (str_lstrip_head x) as [-> | (c & t & -> & Hc)]; [now left|].
  right. rewrite (str_rstrip_keeps_head _ _ Hc). now exists c, (str_rstrip t).
Qed.

Lemma str_strip_no_space_around x : space_around (str_strip x) = false.
Proof.
  destruct (str_strip_head x) as [-> | (c & t & E & Hc)]; [reflexivity|].
  pose proof (str_rstrip_last (str_lstrip x)) as Hlast.
  fold (str_strip x) in Hlast. rewrite E in Hlast |- *.
  cbn [space_around]. now rewrite Hc, Hlast.
Qed.

Lemma str_rstrip_fixed c t :
  is_space (last_char c t) = false -> str_rstrip (String c t) = String c t.
Proof.
  revert c. induction t as [|d u IH]; intros c H.
  - cbn in *. now rewrite H.
  - cbn [last_char] in H. cbn [str_rstrip]. fold str_rstrip.
    change (match str_rstrip (String d u) with
            | "" => if is_space c then "" else String c ""
            | String a0 s0 => String c (String a0 s0)
            end = String c (String d u)).
    now rewrite (IH d H).
Qed.

Lemma str_strip_fixed s : space_around s = false -> str_strip s = s.
Proof.
  destruct s as [|c t]; [reflexivity|]. cbn [space_around].
  intros H. apply orb_false_iff in H. destruct H as [Hc Hlast].
  unfold str_strip. cbn [str_lstrip]. rewrite Hc.
  now apply str_rstrip_fixed.
Qed.

Lemma last_char_append c t d u :
  last_char c (t ++ String d u) = last_char d u.
Proof.
  revert c. induction t as [|e t IH]; intros c; [reflexivity|].
  cbn [String.append last_char]. apply IH.
Qed.

Lemma normalise_chan_no_space_around x :
  space_around (normalise_chan x) = false.
Proof.
  unfold normalise_chan.
  destruct (first_char_is "#" (str_strip x)); [apply str_strip_no_space_around|].
  pose proof (str_strip_no_space_around x) as H.
  destruct (str_strip x) as [|c t]; [reflexivity|].
  cbn [space_around] in H. apply orb_false_iff in H. destruct H as [_ Hlast].
  cbn. exact Hlast.
Qed.

Lemma get_configuration_lists int config r :
  get_configuration int config = ret r ->
  chans r = map normalise_chan (pieces (Chans config)) /\
  botop r = map str_strip (pieces (Botop config)) /\
  Forall (fun x => str_strip x <> "") (pieces (Chans config)).
Proof.
  rewrite get_configuration_eq. unfold pieces.
  destruct (int (Port config)) as [e | p]; [discriminate|]. cbn [bind]. cbv zeta.
  destruct (forallb _ _) eqn:E; [|discriminate].
  intros H. inversion H; subst r; clear H. cbn [chans botop].
  repeat split. apply Forall_forall. intros x Hx.
  rewrite forallb_forall in E. specialize (E x Hx).
  apply negb_true_iff in E. now apply String.eqb_neq.
Qed.

(** X7: no channel and no operator of a returned configuration begins or
    ends with a whitespace character. *)
Theorem configuration_entries_trimmed int config r :
  get_configuration int config = ret r ->
  Forall (fun chan => space_around chan = false) (chans r) /\
  Forall (fun op => space_around op = false) (botop r).
Proof.
  intros H. destruct (get_configuration_lists _ _ _ H) as (-> & -> & _).
  split; apply Forall_forall; intros y Hy; apply in_map_iff in Hy;
    destruct Hy as (x & <- & _);
    [apply normalise_chan_no_space_around | apply str_strip_no_space_around].
Qed.

Lemma configuration_entries_trimmed_witness :
  Forall (fun chan => space_around chan = false) ["#a"; "#b"; "##c"] /\
  Forall (fun op => space_around op = false) ["op1"; "op2"].
Proof.
  exact (configuration_entries_trimmed (fun _ => ret 6667%Z)
    (IrcSection "irc.freenode.net" "6667" "GorillaBot" "GorillaBot" "GorillaBot"
       "#a, b ,##c" " op1  ,op2 ")
    (Configuration "irc.freenode.net" 6667 "GorillaBot" "GorillaBot"
       "GorillaBot" ["#a"; "#b"; "##c"] ["op1"; "op2"])
    eq_refl).
Defined.

(** ** When the lists fail *)

Lemma forallb_nonblank l :
  forallb (fun x => negb (String.eqb (str_strip x) "")) l = true <->
  Forall (fun x => str_strip x <> "") l.
Proof.
  rewrite forallb_forall, Forall_forall.
  split; intros H x Hx; specialize (H x Hx).
  - apply negb_true_iff in H. now apply String.eqb_neq.
  - apply negb_true_iff. now apply String.eqb_neq.
Qed.


Lemma get_configuration_returns int config p :
  int (Port config) = ret p ->
  Forall (fun x => str_strip x <> "") (pieces (Chans config)) ->
  get_configuration int config
  = ret (Configuration (Host config) p (Nick config) (Realname config)
           (Ident config)
           (map normalise_chan (pieces (Chans config)))
           (map str_strip (pieces (Botop config)))).
Proof.
  intros Hp Hall. rewrite get_configuration_eq, Hp. cbn [bind]. cbv zeta.
  fold (pieces (Chans config)) (pieces (Botop config)).
  apply forallb_nonblank in Hall. now rewrite Hall.
Qed.



(** ** How many entries *)

Lemma str_split_length sep s :
  length (str_split sep s) = S (count_char sep s).
Proof.
  induction s as [|c t IH]; [reflexivity|].
  cbn [str_split count_char]. destruct (Ascii.eqb c sep).
  - cbn [length]. now rewrite IH.
  - destruct (str_split sep t) as [|w ws]; [discriminate|]. exact IH.
Qed.

(** X8: a returned configuration has one channel more than the [chans] value
    has separators, and one operator more than the [botop] value has: neither
    list is ever empty, and an empty [botop] value gives one operator, the
    empty name. *)
Theorem configuration_entry_count int config r :
  get_configuration int config = ret r ->
  length (chans r)
  = S (count_char (separator (Chans config)) (Chans config)) /\
  length (botop r)
  = S (count_char (separator (Botop config)) (Botop config)) /\
  (Botop config = "" -> botop r = [""]).
Proof.
  intros H. destruct (get_configuration_lists _ _ _ H) as (-> & -> & _).
  unfold pieces. rewrite !length_map, !str_split_length.
  repeat split. now intros ->.
Qed.

Lemma configuration_entry_count_witness :
  length ["#a"; "#b"; "##c"] = 3 /\ length [""] = 1.
Proof.
  destruct (configuration_entry_count (fun _ => ret 6667%Z)
    (IrcSection "irc.freenode.net" "6667" "GorillaBot" "GorillaBot" "GorillaBot"
       "#a, b ,##c" "")
    (Configuration "irc.freenode.net" 6667 "GorillaBot" "GorillaBot"
       "GorillaBot" ["#a"; "#b"; "##c"] [""])
    eq_refl) as (Hc & Ho & _).
  split; [exact Hc | exact Ho].
Defined.

(** ** Writing the lists back *)

Lemma has_char_append c a b :
  has_char c (a ++ b) = has_char c a || has_char c b.
Proof.
  induction a as [|d a IH]; [reflexivity|].
  cbn [String.append has_char]. now rewrite IH, orb_assoc.
Qed.

Lemma has_char_count c s : has_char c s = false <-> count_char c s = 0.
Proof.
  induction s as [|d t IH]; [now split|].
  cbn [has_char count_char]. destruct (Ascii.eqb d c); cbn [orb].
  - split; [discriminate | intros H; discriminate].
  - exact IH.
Qed.

Lemma str_split_no_sep sep w :
  has_char sep w = false -> str_split sep w = [w].
Proof.
  induction w as [|c w IH]; [reflexivity|].
  cbn [has_char str_split]. intros H. apply orb_false_iff in H.
  destruct H as [Hc H]. now rewrite Hc, (IH H).
Qed.

Lemma str_split_append sep w s :
  has_char sep w = false ->
  str_split sep (w ++ String sep s) = w :: str_split sep s.
Proof.
  induction w as [|c w IH]; cbn [String.append has_char str_split].
  - intros _. now rewrite Ascii.eqb_refl.
  - intros H. apply orb_false_iff in H. destruct H as [Hc H].
    now rewrite Hc, (IH H).
Qed.

Lemma str_split_join sep l :
  l <> [] ->
  Forall (fun w => has_char sep w = false) l ->
  str_split sep (str_join sep l) = l.
Proof.
  induction l as [|w l IH]; [intros H; now elim H|].
  intros _ Hall. inversion Hall as [|? ? Hw Hl]; subst.
  destruct l as [|w' l].
  - cbn [str_join]. now apply str_split_no_sep.
  - cbn [str_join]. rewrite (str_split_append _ _ _ Hw).
    f_equal. apply IH; [discriminate | exact Hl].
Qed.

Lemma str_split_keeps_absent c sep s :
  has_char c s = false ->
  Forall (fun w => has_char c w = false) (str_split sep s).
Proof.
  induction s as [|d t IH]; [repeat constructor|].
  cbn [has_char str_split]. intros H. apply orb_false_iff in H.
  destruct H as [Hd H]. specialize (IH H).
  destruct (Ascii.eqb d sep).
  - constructor; [reflexivity | exact IH].
  - destruct (str_split sep t) as [|w ws];
      [repeat constructor; cbn; now rewrite Hd|].
    inversion IH; subst. constructor; [cbn; now rewrite Hd | assumption].
Qed.

Lemma has_char_lstrip c s :
  has_char c s = false -> has_char c (str_lstrip s) = false.
Proof.
  induction s as [|d t IH]; [reflexivity|].
  intros H. cbn [str_lstrip]. destruct (is_space d); [|exact H].
  cbn [has_char] in H. apply orb_false_iff in H. now apply IH.
Qed.

Lemma has_char_rstrip c s :
  has_char c s = false -> has_char c (str_rstrip s) = false.
Proof.
  induction s as [|d t IH]; [reflexivity|].
  cbn [has_char]. intros H. apply orb_false_iff in H. destruct H as [Hd H].
  specialize (IH H). cbn [str_rstrip].
  destruct (str_rstrip t) as [|e u].
  - destruct (is_space d); [reflexivity | cbn; now rewrite Hd].
  - cbn [has_char] in *. now rewrite Hd, IH.
Qed.

Lemma has_char_strip c s :
  has_char c s = false -> has_char c (str_strip s) = false.
Proof. intros H. now apply has_char_rstrip, has_char_lstrip. Qed.

Lemma has_char_normalise_chan c x :
  Ascii.eqb "#" c = false ->
  has_char c x = false -> has_char c (normalise_chan x) = false.
Proof.
  intros Hc H. unfold normalise_chan. apply has_char_strip in H.
  destruct (first_char_is "#" (str_strip x)); [exact H|].
  cbn [String.append has_char]. now rewrite Hc, H.
Qed.

Lemma has_char_join c l :
  has_char c (str_join c l) = false -> length l <= 1.
Proof.
  destruct l as [|w [|w' l]]; cbn [length]; try lia.
  cbn [str_join]. rewrite has_char_append. cbn [has_char].
  rewrite Ascii.eqb_refl, orb_true_r. discriminate.
Qed.

(** The pieces of a value, each passed through a function that brings in
    neither comma nor space, are the pieces of their own comma-joined
    text. *)
Lemma pieces_of_joined (f : string -> string) value :
  (forall c x, c = ","%char \/ c = " "%char ->
               has_char c x = false -> has_char c (f x) = false) ->
  pieces (str_join "," (map f (pieces value))) = map f (pieces value).
Proof.
  intros Hf.
  assert (Hne : map f (pieces value) <> []).
  { unfold pieces. destruct (str_split (separator value) value) eqn:E;
      [now elim (str_split_not_nil _ _ E) | discriminate]. }
  assert (Hcomma : Forall (fun w => has_char "," w = false) (map f (pieces value))).
  { apply Forall_forall. intros y Hy. apply in_map_iff in Hy.
    destruct Hy as (x & <- & Hx). apply Hf; [now left|].
    unfold pieces, separator in Hx. rewrite str_contains_char in Hx.
    destruct (has_char "," value) eqn:E.
    - pose proof (str_split_pieces "," value) as Hp.
      rewrite Forall_forall in Hp. now apply Hp.
    - pose proof (str_split_keeps_absent "," " " value E) as Hp.
      rewrite Forall_forall in Hp. now apply Hp. }
  unfold pieces at 1. unfold separator. rewrite str_contains_char.
  destruct (has_char "," (str_join "," (map f (pieces value)))) eqn:E.
  - now apply str_split_join.
  - apply has_char_join in E. rewrite length_map in E.
    assert (Hsep : has_char "," value = false /\ has_char " " value = false).
    { unfold pieces, separator in E. rewrite str_contains_char in E.
      rewrite str_split_length in E.
      destruct (has_char "," value) eqn:Ev.
      - assert (count_char "," value = 0) as H0 by lia.
        apply has_char_count in H0. congruence.
      - split; [reflexivity|]. apply has_char_count. lia. }
    destruct Hsep as [Hc Hs].
    unfold pieces, separator. rewrite str_contains_char, Hc.
    rewrite (str_split_no_sep " " value Hs). cbn [map str_join].
    apply str_split_no_sep. apply Hf; [now right | exact Hs].
Qed.

Lemma normalise_chan_fixed x : normalise_chan (normalise_chan x) = normalise_chan x.
Proof.
  pose proof (normalise_chan_hash x) as Hhash.
  pose proof (str_strip_fixed _ (normalise_chan_no_space_around x)) as Hfix.
  unfold normalise_chan at 1. now rewrite Hfix, Hhash.
Qed.

Lemma str_strip_twice x : str_strip (str_strip x) = str_strip x.
Proof. apply str_strip_fixed, str_strip_no_space_around. Qed.

(** X9: the lists of a returned configuration survive being written back:
    with the channels and the operators joined with commas as the [chans] and
    [botop] values, and the other values unchanged, [get_configuration]
    returns the same configuration. *)
Theorem configuration_round_trip int config r :
  get_configuration int config = ret r ->
  get_configuration int
    (IrcSection (Host config) (Port config) (Nick config) (Realname config)
       (Ident config) (str_join "," (chans r)) (str_join "," (botop r)))
  = ret r.
Proof.
  intros H. destruct (get_configuration_lists _ _ _ H) as (Hc & Ho & _).
  rewrite get_configuration_eq in H.
  destruct (int (Port config)) as [e | p] eqn:Hp; [discriminate|].
  cbn [bind] in H. cbv zeta in H.
  destruct (forallb _ _); [|discriminate]. inversion H as [Hr].
  rewrite Hr at 1 2.
  pose proof (get_configuration_returns int
    (IrcSection (Host config) (Port config) (Nick config) (Realname config)
       (Ident config) (str_join "," (chans r)) (str_join "," (botop r))))
    as Hret.
  cbn [Host Port Nick Realname Ident Chans Botop] in Hret.
  rewrite (Hret p Hp).
  - rewrite Hc, Ho.
    rewrite (pieces_of_joined normalise_chan),
            (pieces_of_joined str_strip).
    + rewrite !map_map.
      rewrite (map_ext _ _ normalise_chan_fixed), (map_ext _ _ str_strip_twice).
      rewrite <- Hc, <- Ho. subst r. reflexivity.
    + intros c x _. apply has_char_strip.
    + intros c x [-> | ->]; now apply has_char_normalise_chan.
  - rewrite Hc, (pieces_of_joined normalise_chan).
    + apply Forall_forall. intros y Hy. apply in_map_iff in Hy.
      destruct Hy as (x & <- & _).
      rewrite (str_strip_fixed _ (normalise_chan_no_space_around x)).
      pose proof (normalise_chan_hash x) as Hh.
      destruct (normalise_chan x); [discriminate Hh | discriminate].
    + intros c x [-> | ->]; now apply has_char_normalise_chan.
Qed.

Lemma configuration_round_trip_witness :
  get_configuration (fun _ => ret 6667%Z)
    (IrcSection "irc.freenode.net" "6667" "GorillaBot" "GorillaBot" "GorillaBot"
       "#a,#b,##c" "op1,op2")
  = ret (Configuration "irc.freenode.net" 6667 "GorillaBot" "GorillaBot"
           "GorillaBot" ["#a"; "#b"; "##c"] ["op1"; "op2"]).
Proof.
  exact (configuration_round_trip (fun _ => ret 6667%Z)
    (IrcSection "irc.freenode.net" "6667" "GorillaBot" "GorillaBot" "GorillaBot"
       "#a b ##c" " op1  ,op2 ")
    (Configuration "irc.freenode.net" 6667 "GorillaBot" "GorillaBot"
       "GorillaBot" ["#a"; "#b"; "##c"] ["op1"; "op2"])
    eq_refl).
Defined.

(** ** The dialogue of [make_new] *)

Lemma io_bind_returns {A B : Type} (c : io A) (k : A -> io B) w a w' :
  c w = (inr a, w') -> io_bind c k w = k a w'.
Proof. intros H. unfold io_bind. now rewrite H. Qed.

Lemma io_bind_raises {A B : Type} (c : io A) (k : A -> io B) w e w' :
  c w = (inl e, w') -> io_bind c k w = (inl e, w').
Proof. intros H. unfold io_bind. now rewrite H. Qed.

Lemma prompt_reply field default reply rest shown :
  prompt field default (Console (reply :: rest) shown)
  = (inr (match default with
          | Some d => if String.eqb reply "" then d else Str reply
          | None => Str reply
          end),
     Console rest (shown ++ [Wrote (prompt_text field default); Read reply])).
Proof.
  unfold prompt, prompt_text.
  destruct default as [d|].
  - destruct (truthy (Some d)); unfold io_bind, input; cbn [unread transcript];
      destruct (String.eqb reply ""); reflexivity.
  - reflexivity.
Qed.

Lemma prompt_end_of_input field default shown :
  prompt field default (Console [] shown)
  = (inl EOFError, Console [] (shown ++ [Wrote (prompt_text field default)])).
Proof.
  unfold prompt, prompt_text.
  destruct default as [d|]; [destruct (truthy (Some d))|]; reflexivity.
Qed.

Lemma make_new_round_replies r rest shown :
  make_new_round (Console (lines_of r ++ rest) shown)
  = (inr (answers_of r, str_lower (to_confirm r)),
     Console rest (shown ++ round_transcript r)).
Proof.
  destruct r as [h p n i rn c b y]. unfold make_new_round, lines_of.
  cbn [to_host to_port to_nick to_ident to_realname to_chans to_botop to_confirm app].
  erewrite io_bind_returns by reflexivity. cbn [unread transcript].
  do 7 (erewrite io_bind_returns by apply prompt_reply).
  erewrite io_bind_returns by reflexivity. cbn [unread transcript].
  unfold io_bind, input, io_ret. cbn [unread transcript].
  unfold round_transcript, answers_of, or_default, prompt_text.
  cbn [to_host to_port to_nick to_ident to_realname to_chans to_botop to_confirm
       truthy String.eqb negb Z.eqb].
  repeat rewrite <- app_assoc. cbn [app].
  destruct (String.eqb_spec b "") as [-> | _].
  - destruct (String.eqb h ""), (String.eqb p ""), (String.eqb n ""),
      (String.eqb i ""), (String.eqb rn ""); reflexivity.
  - destruct (String.eqb h ""), (String.eqb p ""), (String.eqb n ""),
      (String.eqb i ""), (String.eqb rn ""); reflexivity.
Qed.

Lemma chr_lower_y c : chr_lower c = "y"%char <-> c = "y"%char \/ c = "Y"%char.
Proof.
  split.
  - destruct c as [[] [] [] [] [] [] [] []]; vm_compute; intros H;
      first [discriminate H | now left | now right].
  - intros [-> | ->]; reflexivity.
Qed.

Lemma str_lower_y reply : str_lower reply = "y" <-> reply = "y" \/ reply = "Y".
Proof.
  destruct reply as [|c [|d t]]; cbn [str_lower].
  - split; [discriminate | intros [H | H]; discriminate].
  - split.
    + intros H. inversion H as [Hc]. apply chr_lower_y in Hc.
      destruct Hc as [-> | ->]; auto.
    + intros [H | H]; inversion H; reflexivity.
  - split; [discriminate | intros [H | H]; discriminate].
Qed.

Lemma str_lower_not_y reply :
  reply <> "y" /\ reply <> "Y" -> String.eqb (str_lower reply) "y" = false.
Proof.
  intros [H1 H2]. apply String.eqb_neq. intros H. apply str_lower_y in H. tauto.
Qed.

Lemma config_set_calls_of r : config_set_calls (answers_of r) = stored_of r.
Proof.
  unfold config_set_calls, answers_of, stored_of, or_default.
  cbn [new_host new_port new_nick new_realname new_ident new_chans new_botop str].
  now destruct (String.eqb (to_port r) "").
Qed.

(** X10: the loop of [make_new] asks its seven questions again until the
    reply to the last one is [y] or [Y]: it reads eight lines a turn, drops
    the turns that were not confirmed and ends with the local variables
    holding the replies of the confirmed turn, an empty reply standing for
    the default of its question ([irc.freenode.net], the integer [6667],
    [GorillaBot]; none for the channels, the empty text for the operators).
    The transcript is the questions and replies of every turn in order. *)
Theorem make_new_loop_keeps_confirmed_turn rejected :
  forall fuel accepted rest shown,
    Forall (fun r => to_confirm r <> "y" /\ to_confirm r <> "Y") rejected ->
    to_confirm accepted = "y" \/ to_confirm accepted = "Y" ->
    length rejected < fuel ->
    make_new_loop fuel
      (Console (flat_map lines_of rejected ++ lines_of accepted ++ rest) shown)
    = (inr (Some (answers_of accepted)),
       Console rest
         (shown ++ flat_map round_transcript rejected ++ round_transcript accepted)).
Proof.
  induction rejected as [|r rejected IH]; intros fuel accepted rest shown Hrej Hacc Hfuel.
  - destruct fuel as [|fuel]; [cbn in Hfuel; lia|].
    cbn [flat_map app make_new_loop].
    erewrite io_bind_returns by apply make_new_round_replies.
    cbv beta iota. apply str_lower_y in Hacc. rewrite Hacc. reflexivity.
  - destruct fuel as [|fuel]; [cbn in Hfuel; lia|].
    inversion Hrej as [|? ? Hr Hrest]; subst.
    cbn [flat_map make_new_loop]. rewrite <- app_assoc.
    erewrite io_bind_returns by apply make_new_round_replies.
    cbv beta iota. rewrite (str_lower_not_y _ Hr).
    rewrite IH; [|assumption | assumption | cbn in Hfuel; lia].
    now rewrite <- !app_assoc.
Qed.

Lemma make_new_loop_keeps_confirmed_turn_witness :
  fst (make_new_loop 2
         (Console ["example.org"; ""; ""; ""; ""; "#a"; ""; "n";
                   ""; "6697"; "Bot"; "id"; "Real Name"; "#a,#b"; "me"; "Y";
                   "left"] []))
  = inr (Some (Answers (Str "irc.freenode.net") (Str "6697") (Str "Bot")
                 (Str "id") (Str "Real Name") (Str "#a,#b") (Str "me"))).
Proof.
  assert (Hrej : Forall (fun r => to_confirm r <> "y" /\ to_confirm r <> "Y")
                   [Replies "example.org" "" "" "" "" "#a" "" "n"])
    by (repeat constructor; discriminate).
  exact (f_equal fst
           (make_new_loop_keeps_confirmed_turn
              [Replies "example.org" "" "" "" "" "#a" "" "n"] 2
              (Replies "" "6697" "Bot" "id" "Real Name" "#a,#b" "me" "Y")
              ["left"] [] Hrej (or_intror eq_refl) (le_n 2))).
Defined.

Lemma lines_split (lines : list string) :
  length lines < 8 \/ exists r rest, lines = lines_of r ++ rest.
Proof.
  destruct lines as [|h [|p [|n [|i [|rn [|c [|b [|y rest]]]]]]]];
    try (left; cbn; lia).
  right. exists (Replies h p n i rn c b y), rest. reflexivity.
Qed.

Lemma make_new_round_end_of_input lines shown :
  length lines < 8 ->
  exists w', make_new_round (Console lines shown) = (inl EOFError, w').
Proof.
  intros H. unfold make_new_round.
  erewrite io_bind_returns by reflexivity. cbn [unread transcript].
  destruct lines as [|h [|p [|n [|i [|rn [|c [|b [|y rest]]]]]]]];
    try (cbn in H; lia);
    repeat (erewrite io_bind_returns by apply prompt_reply);
    try (erewrite io_bind_raises by apply prompt_end_of_input;
         eexists; reflexivity).
  erewrite io_bind_returns by reflexivity. cbn [unread transcript].
  eexists. reflexivity.
Qed.

Lemma make_new_loop_returns_inv fuel :
  forall w a w',
    make_new_loop fuel w = (inr (Some a), w') ->
    exists rejected accepted,
      unread w = flat_map lines_of rejected ++ lines_of accepted ++ unread w' /\
      a = answers_of accepted /\
      transcript w'
      = transcript w ++ flat_map round_transcript rejected
        ++ round_transcript accepted /\
      (to_confirm accepted = "y" \/ to_confirm accepted = "Y") /\
      Forall (fun r => to_confirm r <> "y" /\ to_confirm r <> "Y") rejected.
Proof.
  induction fuel as [|fuel IH]; intros [lines shown] a w' H; [discriminate|].
  cbn [make_new_loop] in H.
  destruct (lines_split lines) as [Hshort | (r & rest & ->)].
  - destruct (make_new_round_end_of_input lines shown Hshort) as [w1 Hw1].
    rewrite (io_bind_raises _ _ _ _ _ Hw1) in H. discriminate.
  - rewrite (io_bind_returns _ _ _ _ _ (make_new_round_replies r rest shown)) in H.
    cbv beta iota in H.
    destruct (String.eqb_spec (str_lower (to_confirm r)) "y") as [Hy | Hn].
    + inversion H; subst a w'; clear H.
      exists [], r. cbn [flat_map app unread transcript].
      repeat split; auto. now apply str_lower_y.
    + apply IH in H.
      destruct H as (rejected & accepted & Hu & Ha & Ht & Hacc & Hrej).
      cbn [unread transcript] in Hu, Ht.
      exists (r :: rejected), accepted. cbn [flat_map unread transcript].
      repeat split; auto.
      * now rewrite Hu, <- app_assoc.
      * now rewrite Ht, <- !app_assoc.
      * constructor; [|exact Hrej].
        split; intros Heq; apply Hn; apply str_lower_y; auto.
Qed.

(** X11: whenever [make_new] returns, the value it stores as [realname] is
    the reply to the question shown as [Ident], and the value it stores as
    [ident] is the reply to the question shown as [Realname] (or the default
    [GorillaBot] for an empty reply): the two are the last questions but
    seven events of the transcript. *)
Theorem make_new_swaps_realname_and_ident fuel w calls w' :
  make_new fuel w = (inr (Some calls), w') ->
  exists before ident_reply realname_reply after,
    transcript w'
    = before
      ++ [Wrote "Ident [DEFAULT: GorillaBot]: "; Read ident_reply;
          Wrote "Realname [DEFAULT: GorillaBot]: "; Read realname_reply]
      ++ after /\
    length after = 7 /\
    nth_error calls 3
    = Some ("irc", "realname", or_default ident_reply "GorillaBot") /\
    nth_error calls 4
    = Some ("irc", "ident", or_default realname_reply "GorillaBot").
Proof.
  unfold make_new, io_bind.
  destruct (make_new_loop fuel w) as [[e | [a|]] w1] eqn:E; try discriminate.
  cbn [io_ret option_map]. intros H. inversion H; subst calls w1; clear H.
  apply make_new_loop_returns_inv in E.
  destruct E as (rejected & accepted & _ & -> & Ht & _ & _).
  rewrite config_set_calls_of.
  exists (transcript w ++ flat_map round_transcript rejected
          ++ firstn 7 (round_transcript accepted)),
    (to_ident accepted), (to_realname accepted),
    (skipn 11 (round_transcript accepted)).
  repeat split. rewrite Ht, <- !app_assoc. reflexivity.
Qed.

Lemma make_new_swaps_realname_and_ident_witness :
  exists before ident_reply realname_reply after,
    transcript
      (snd (make_new 1
              (Console [""; ""; ""; "user"; "Full Name"; "#a"; ""; "y"] [])))
    = before
      ++ [Wrote "Ident [DEFAULT: GorillaBot]: "; Read ident_reply;
          Wrote "Realname [DEFAULT: GorillaBot]: "; Read realname_reply]
      ++ after /\
    length after = 7 /\
    nth_error
      [("irc", "host", "irc.freenode.net"); ("irc", "port", "6667");
       ("irc", "nick", "GorillaBot"); ("irc", "realname", "user");
       ("irc", "ident", "Full Name"); ("irc", "chans", "#a");
       ("irc", "botop", "")] 3
    = Some ("irc", "realname", or_default ident_reply "GorillaBot") /\
    nth_error
      [("irc", "host", "irc.freenode.net"); ("irc", "port", "6667");
       ("irc", "nick", "GorillaBot"); ("irc", "realname", "user");
       ("irc", "ident", "Full Name"); ("irc", "chans", "#a");
       ("irc", "botop", "")] 4
    = Some ("irc", "ident", or_default realname_reply "GorillaBot").
Proof.
  exact (make_new_swaps_realname_and_ident 1
           (Console [""; ""; ""; "user"; "Full Name"; "#a"; ""; "y"] [])
           [("irc", "host", "irc.freenode.net"); ("irc", "port", "6667");
            ("irc", "nick", "GorillaBot"); ("irc", "realname", "user");
            ("irc", "ident", "Full Name"); ("irc", "chans", "#a");
            ("irc", "botop", "")]
           (snd (make_new 1
                   (Console [""; ""; ""; "user"; "Full Name"; "#a"; ""; "y"] [])))
           eq_refl).
Defined.

(** X12: [make_new] cannot be declined.  When no line left on the standard
    input is [y] or [Y], the call does not return: every turn that is not
    confirmed asks again, and the call ends with [EOFError] when the input
    runs out. *)
Theorem make_new_without_confirmation fuel w :
  length (unread w) < fuel ->
  Forall (fun reply => reply <> "y" /\ reply <> "Y") (unread w) ->
  fst (make_new fuel w) = inl EOFError.
Proof.
  intros Hfuel Hall.
  assert (Hloop : fst (make_new_loop fuel w) = inl EOFError).
  { revert w Hfuel Hall.
    induction fuel as [|fuel IH]; intros [lines shown] Hfuel Hall;
      cbn [unread] in *; [lia|].
    cbn [make_new_loop].
    destruct (lines_split lines) as [Hshort | (r & rest & ->)].
    - destruct (make_new_round_end_of_input lines shown Hshort) as [w1 Hw1].
      now rewrite (io_bind_raises _ _ _ _ _ Hw1).
    - rewrite (io_bind_returns _ _ _ _ _ (make_new_round_replies r rest shown)).
      cbv beta iota.
      apply Forall_app in Hall. destruct Hall as [Hr Hrest].
      assert (Hc : to_confirm r <> "y" /\ to_confirm r <> "Y").
      { rewrite Forall_forall in Hr. apply Hr. unfold lines_of.
        do 7 right. now left. }
      rewrite (str_lower_not_y _ Hc). apply IH; cbn [unread]; [|exact Hrest].
      rewrite length_app in Hfuel. cbn in Hfuel. lia. }
  unfold make_new, io_bind.
  destruct (make_new_loop fuel w) as [[e | a] w1]; cbn [fst] in *;
    [destruct e; reflexivity | discriminate].
Qed.

Lemma make_new_without_confirmation_witness :
  fst (make_new 11
         (Console [""; ""; ""; ""; ""; "#a"; ""; "n"; "x"; "no"] []))
  = inl EOFError.
Proof.
  apply (make_new_without_confirmation 11
           (Console [""; ""; ""; ""; ""; "#a"; ""; "n"; "x"; "no"] [])).
  - cbn. lia.
  - repeat constructor; discriminate.
Defined.

(** The turns never run out when there are more of them than lines to
    read. *)
Lemma make_new_loop_fuel fuel :
  forall w, length (unread w) < fuel ->
            fst (make_new_loop fuel w) <> inr None.
Proof.
  induction fuel as [|fuel IH]; intros [lines shown] Hfuel;
    cbn [unread] in *; [lia|].
  cbn [make_new_loop].
  destruct (lines_split lines) as [Hshort | (r & rest & ->)].
  - destruct (make_new_round_end_of_input lines shown Hshort) as [w1 Hw1].
    rewrite (io_bind_raises _ _ _ _ _ Hw1). discriminate.
  - rewrite (io_bind_returns _ _ _ _ _ (make_new_round_replies r rest shown)).
    cbv beta iota.
    destruct (String.eqb (str_lower (to_confirm r)) "y"); [discriminate|].
    apply IH. cbn [unread]. rewrite length_app in Hfuel. cbn in Hfuel. lia.
Qed.
